(** * Reddit opportunity harvester: the API routes and the core they drive

    A shallow embedding of [server/routes.ts] (the handlers registered by
    [registerRoutes]) together with the collaborators the handlers call.
    The collaborators whose source files are not part of the development
    ([server/scheduler.ts], [server/storage.ts]) are modelled from the
    specification; every such definition says so in its doc comment. *)

From Stdlib Require Import String Ascii List ZArith QArith Bool Lia.
From Stdlib Require Import Sorted Permutation.
From Stdlib Require Import DecimalString.
From Stdlib Require Qcanon.
From Stdlib Require DecimalNat.
Import ListNotations.

Set Warnings "-register-all".

Local Close Scope Q_scope.
Local Open Scope list_scope.
Local Open Scope string_scope.
Local Open Scope Z_scope.

(* ================================================================== *)
(** * JavaScript values used by the handlers *)
(* ================================================================== *)

(** A JavaScript number as the handlers see it: [parseInt] gives [NaN],
    an integer that a double holds, or an infinity; request bodies carry
    arbitrary decimal literals. The sign of zero is not kept. *)
Inductive number : Type :=
| NaN
| Num (q : Q)
| Infinity (negative : bool).

(** An integer as a JavaScript number. *)
Definition int (z : Z) : number := Num (inject_Z z).

(** The Number value of a mathematical integer: itself up to 2^53 in
    absolute value; beyond, the nearest double (53 significant bits, ties
    to the even one), and an infinity from 2^1024 on. (Past twenty
    significant digits an engine may round less exactly; the statements
    below stay within 2^53.) *)
Definition to_number (z : Z) : number :=
  let a := Z.abs z in
  if a <=? 2 ^ 53 then int z
  else
    let e := Z.log2 a - 52 in
    let q := Z.shiftr a e in
    let r := a - Z.shiftl q e in
    let half := Z.shiftl 1 (e - 1) in
    let m := if (half <? r) || ((r =? half) && Z.odd q) then q + 1 else q in
    let v := Z.shiftl m e in
    if 2 ^ 1024 <=? v then Infinity (z <? 0) else int (Z.sgn z * v).

(** The value of [req.body] after JSON decoding. An object is a list of
    its own properties; a property is looked up by its first entry. *)
Inductive json : Type :=
| JNull
| JBool (b : bool)
| JNum (q : Q)
| JStr (s : string)
| JArr (items : list json)
| JObj (props : list (string * json)).

(** [object[key]]; [None] is [undefined]. *)
Fixpoint prop (key : string) (props : list (string * json)) : option json :=
  match props with
  | [] => None
  | (k, v) :: rest => if String.eqb k key then Some v else prop key rest
  end.

(** ** [parseInt(s)] with the radix left out *)

(** A text is the sequence of its code units, and the texts of this
    development are those whose code units are below 256. The white space
    [parseInt] skips among these: tab, line feed, vertical tab, form feed,
    carriage return, space and the no-break space U+00A0. *)
Definition is_white_space (c : ascii) : bool :=
  let n := nat_of_ascii c in
  ((9 <=? n) && (n <=? 13) || (n =? 32) || (n =? 160))%nat.

Fixpoint skip_white_space (s : string) : string :=
  match s with
  | String c rest => if is_white_space c then skip_white_space rest else s
  | EmptyString => s
  end.

(** The value of a digit: 0 to 9, then the letters in either case. *)
Definition digit_value (c : ascii) : option Z :=
  let n := Z.of_nat (nat_of_ascii c) in
  if (48 <=? n) && (n <=? 57) then Some (n - 48)
  else if (97 <=? n) && (n <=? 122) then Some (n - 87)
  else if (65 <=? n) && (n <=? 90) then Some (n - 55)
  else None.

(** The longest prefix of digits of the radix, read as a number; [None]
    when that prefix is empty. *)
Fixpoint read_digits (radix : Z) (acc : option Z) (s : string) : option Z :=
  match s with
  | EmptyString => acc
  | String c rest =>
      match digit_value c with
      | Some d =>
          if d <? radix
          then read_digits radix
                 (Some (match acc with Some a => a | None => 0 end * radix + d))
                 rest
          else acc
      | None => acc
      end
  end.

(** White space, an optional sign, [0x] or [0X] for radix 16, then the
    digits, read exactly and then made a Number; [NaN] when there is no
    digit. *)
Definition parseInt (s : string) : number :=
  let s1 := skip_white_space s in
  let '(sign, s2) :=
    match s1 with
    | String "-"%char rest => (-1, rest)
    | String "+"%char rest => (1, rest)
    | _ => (1, s1)
    end in
  let '(radix, s3) :=
    match s2 with
    | String "0"%char (String "x"%char rest) => (16, rest)
    | String "0"%char (String "X"%char rest) => (16, rest)
    | _ => (10, s2)
    end in
  match read_digits radix None s3 with
  | Some v => to_number (sign * v)
  | None => NaN
  end.

(** A query parameter after the destructuring defaults of a handler
    ([limit = 10, offset = 0]): the default is a number, a supplied
    parameter is the string of the query string. *)
Inductive qparam : Type :=
| QNumber (z : Z)
| QString (s : string).

Definition with_default (d : Z) (p : option string) : qparam :=
  match p with
  | Some s => QString s
  | None => QNumber d
  end.

(** [x ? ... : ...] on such a value. *)
Definition truthy (p : qparam) : bool :=
  match p with
  | QNumber z => negb (z =? 0)
  | QString s => negb (String.eqb s "")
  end.

(** [parseInt(x as string)]: a number is first printed in decimal. *)
Definition parseInt_param (p : qparam) : number :=
  match p with
  | QNumber z => int z
  | QString s => parseInt s
  end.

(** [p ? parseInt(p as string) : undefined] *)
Definition parse_if_given (p : option string) : option number :=
  match p with
  | Some s => if String.eqb s "" then None else Some (parseInt s)
  | None => None
  end.

Definition parse_if_truthy (p : qparam) : option number :=
  if truthy p then Some (parseInt_param p) else None.

(* ================================================================== *)
(** * Handlers as computations *)
(* ================================================================== *)

(** What a handler can throw: a zod validation error or anything else. *)
Inductive exn : Type :=
| ZodError
| Failure.

Inductive outcome (A : Type) : Type :=
| Returns (a : A)
| Throws (e : exn).
Arguments Returns {A} a.
Arguments Throws {A} e.

(** What a handler sends: [res.status(code).json(payload)], a
    [{ message }] body (the [errors] that go with the message of a 400 are
    left out), or an empty body. *)
Inductive reply (A : Type) : Type :=
| Json (code : Z) (payload : A)
| Message (code : Z) (msg : string)
| Empty (code : Z).
Arguments Json {A} code payload.
Arguments Message {A} code msg.
Arguments Empty {A} code.

Definition code_of {A} (r : reply A) : Z :=
  match r with
  | Json c _ => c
  | Message c _ => c
  | Empty c => c
  end.

(** ** zod schemas *)

Definition z_number (v : option json) : outcome Q :=
  match v with
  | Some (JNum q) => Returns q
  | _ => Throws ZodError
  end.

Definition z_string (v : option json) : outcome string :=
  match v with
  | Some (JStr s) => Returns s
  | _ => Throws ZodError
  end.

Definition z_boolean (v : option json) : outcome bool :=
  match v with
  | Some (JBool b) => Returns b
  | _ => Throws ZodError
  end.

Fixpoint z_strings (items : list json) : outcome (list string) :=
  match items with
  | [] => Returns []
  | JStr s :: rest =>
      match z_strings rest with
      | Returns l => Returns (s :: l)
      | Throws e => Throws e
      end
  | _ :: _ => Throws ZodError
  end.

(** [z.array(z.string()).optional()] *)
Definition z_optional_string_array (v : option json)
  : outcome (option (list string)) :=
  match v with
  | None => Returns None
  | Some (JArr items) =>
      match z_strings items with
      | Returns l => Returns (Some l)
      | Throws e => Throws e
      end
  | Some _ => Throws ZodError
  end.

(** [z.object({...}).parse(body)]: the body must be an object. *)
Definition z_object {A} (body : json)
  (fields : list (string * json) -> outcome A) : outcome A :=
  match body with
  | JObj props => fields props
  | _ => Throws ZodError
  end.

(* ================================================================== *)
(** * POST /api/run-crawler *)
(* ================================================================== *)

(** What the run-crawler handler does besides answering. *)
Inductive effect : Type :=
| Log (msg : string)
| RunCrawler (subreddits : list string).

Section RunCrawler.

(** [CrawlHistory] is whatever the crawler service returns. *)
Variable CrawlHistory : Type.
(** [getAllSubreddits()] of [server/subredditList.ts]. *)
Variable getAllSubreddits : list string.
(** [DotNetCrawlerService.runCrawler] *)
Variable runCrawler : list string -> outcome CrawlHistory.
(** The texts of [crawlHistory.id || 'unknown'] and
    [crawlHistory.threadCount || 0] inside the log line. *)
Variable history_id_text : CrawlHistory -> string.
Variable thread_count_text : CrawlHistory -> string.

Definition run_crawler_schema (body : json) : outcome (option (list string)) :=
  z_object body (fun props => z_optional_string_array (prop "subreddits" props)).

(** [subreddits && subreddits.length > 0 ? subreddits : getAllSubreddits()] *)
Definition subredditList (subreddits : option (list string)) : list string :=
  match subreddits with
  | Some (s :: rest) => s :: rest
  | _ => getAllSubreddits
  end.

Definition run_crawler_catch (e : exn) : reply CrawlHistory :=
  match e with
  | ZodError => Message 400 "Invalid request data"
  | Failure => Message 500 "Failed to run crawler"
  end.

Definition run_crawler (body : json) : list effect * reply CrawlHistory :=
  match run_crawler_schema body with
  | Throws e => ([], run_crawler_catch e)
  | Returns subreddits =>
      let subs := subredditList subreddits in
      let started :=
        Log ("Starting crawler for subreddits: " ++ String.concat ", " subs) in
      match runCrawler subs with
      | Throws e => ([started; RunCrawler subs], run_crawler_catch e)
      | Returns crawlHistory =>
          ([started; RunCrawler subs;
            Log ("Crawler completed with ID: " ++ history_id_text crawlHistory
                 ++ ", threads: " ++ thread_count_text crawlHistory)],
           Json 200 crawlHistory)
      end
  end.

(** The crawl passes a request started, in order. *)
Definition crawls (t : list effect) : list (list string) :=
  flat_map (fun e => match e with RunCrawler l => [l] | Log _ => [] end) t.

End RunCrawler.

(* ================================================================== *)
(** * The stored records the handlers touch *)
(* ================================================================== *)

Record Thread : Type := {
  thread_id : Z;
  subreddit : string;
  title : string;
  body : string;
  upvotes : Z;
  intentType : string;
  crawledAt : Z
}.

Record AffiliateProgram : Type := {
  program_id : Z;
  name : string;
  link : string;
  promoCode : option string;
  keywords : list string
}.

Record CommentTemplate : Type := {
  template_id : Z;
  template_type : string;
  template : string
}.

(** A stored SERP check; [serp_position = None] is the null position. *)
Record SerpResult : Type := {
  serp_id : Z;
  serp_threadId : Q;
  serp_query : string;
  serp_position : option Q;
  serp_isRanked : bool;
  checkedAt : Z
}.

Record Opportunity : Type := {
  opportunity_id : Z;
  threadId : Z;
  score : Q;
  intent : option string;
  matchedProgramIds : list Z;
  serpMatch : bool;
  action : string;
  updatedAt : Z
}.

(** The body accepted by POST /api/serp-results. *)
Record InsertSerpResult : Type := {
  new_threadId : Q;
  new_query : string;
  new_position : Q;
  new_isRanked : bool
}.

(* ================================================================== *)
(** * POST /api/serp-results *)
(* ================================================================== *)

Section CreateSerpResult.

(** [storage.createSerpResult] *)
Variable createSerpResult : InsertSerpResult -> outcome SerpResult.

Definition serp_result_schema (body : json) : outcome InsertSerpResult :=
  z_object body (fun props =>
    match z_number (prop "threadId" props),
          z_string (prop "query" props),
          z_number (prop "position" props),
          z_boolean (prop "isRanked" props) with
    | Returns t, Returns q, Returns p, Returns r =>
        Returns {| new_threadId := t; new_query := q;
                   new_position := p; new_isRanked := r |}
    | _, _, _, _ => Throws ZodError
    end).

Definition create_serp_result_catch (e : exn) : reply SerpResult :=
  match e with
  | ZodError => Message 400 "Invalid request data"
  | Failure => Message 500 "Failed to create SERP result"
  end.

(** The handler, with the requests it made to the storage. *)
Definition create_serp_result (body : json)
  : list InsertSerpResult * reply SerpResult :=
  match serp_result_schema body with
  | Throws e => ([], create_serp_result_catch e)
  | Returns serpResultData =>
      match createSerpResult serpResultData with
      | Returns serpResult => ([serpResultData], Json 201 serpResult)
      | Throws e => ([serpResultData], create_serp_result_catch e)
      end
  end.

End CreateSerpResult.

(* ================================================================== *)
(** * [String.prototype.replaceAll] with a string pattern *)
(* ================================================================== *)

Definition drop (n : nat) (s : string) : string :=
  substring n (String.length s - n)%nat s.

(** The replacement text of one match: [$$], [$&], [$`] and [$'] are
    replacement patterns; with a string pattern there are no captures, so
    every other [$] stands for itself. *)
Fixpoint expand (matched before after r : string) : string :=
  match r with
  | EmptyString => EmptyString
  | String c tail =>
      if Ascii.eqb c "$" then
        match tail with
        | String d rest =>
            if Ascii.eqb d "$" then String "$" (expand matched before after rest)
            else if Ascii.eqb d "&" then matched ++ expand matched before after rest
            else if Ascii.eqb d "`" then before ++ expand matched before after rest
            else if Ascii.eqb d "'" then after ++ expand matched before after rest
            else String c (expand matched before after tail)
        | EmptyString => String c EmptyString
        end
      else String c (expand matched before after tail)
  end.

(** Scan [s] from the left; [before] is the part of the subject already
    passed, [skip] the characters of the last match still to pass. *)
Fixpoint replace_from (p r before : string) (skip : nat) (s : string) : string :=
  match s with
  | EmptyString => EmptyString
  | String c rest =>
      match skip with
      | S k => replace_from p r (before ++ String c "") k rest
      | 0%nat =>
          if prefix p s
          then expand p before (drop (String.length p) s) r
                 ++ replace_from p r (before ++ String c "") (String.length p - 1)%nat rest
          else String c (replace_from p r (before ++ String c "") 0 rest)
      end
  end.

(** With the empty pattern every position matches. *)
Fixpoint replace_between (r before s : string) : string :=
  expand "" before s r ++
  match s with
  | EmptyString => EmptyString
  | String c rest => String c (replace_between r (before ++ String c "") rest)
  end.

Definition replaceAll (p r s : string) : string :=
  match p with
  | EmptyString => replace_between r "" s
  | _ => replace_from p r "" 0 s
  end.

(** [s.includes(p)] *)
Fixpoint includes (p s : string) : bool :=
  prefix p s ||
  match s with
  | EmptyString => false
  | String _ rest => includes p rest
  end.

(* ================================================================== *)
(** * POST /api/generate-comment *)
(* ================================================================== *)

(** The placeholders the handler fills from the affiliate program. *)
Definition program_placeholders : list string :=
  ["{{program}}"; "{{link}}"; "{{promo_code}}"].

(** The placeholders the handler fills with fixed text. *)
Definition mock_substitutions : list (string * string) :=
  [("{{benefit}}", "it has specialized templates for blog posts, articles, and social media content");
   ("{{feature}}", "the Boss Mode plan");
   ("{{advantage}}", "write long-form content with AI continuing your thoughts");
   ("{{reason}}", "of its versatility and user-friendly interface");
   ("{{use_case}}", "blog posts and social media content");
   ("{{use_case_1}}", "Blog post outlines");
   ("{{use_case_2}}", "Full blog articles");
   ("{{use_case_3}}", "Social media captions");
   ("{{limitation}}", "the depth of long-form content generation");
   ("{{drawback}}", "requires more editing");
   ("{{improvement}}", "increased by 200%");
   ("{{advantage_1}}", "Specialized templates for your exact content needs");
   ("{{advantage_2}}", "High-quality output requiring minimal editing");
   ("{{advantage_3}}", "Excellent customer support and regular updates");
   ("{{plan}}", "Creator");
   ("{{price}}", "$49");
   ("{{result}}", "have seen a 70% reduction in content creation time");
   ("{{discount}}", "20% off your first month")].

Definition recognized_placeholders : list string :=
  (program_placeholders ++ map fst mock_substitutions)%list.

(** [program.promoCode || ''] *)
Definition promo_code_text (program : AffiliateProgram) : string :=
  match promoCode program with
  | Some code => code
  | None => ""
  end.

(** The comment built from a template text. *)
Definition fill_template (program : AffiliateProgram) (text : string) : string :=
  let comment := text in
  let comment := replaceAll "{{program}}" (name program) comment in
  let comment := replaceAll "{{link}}" (link program) comment in
  let comment := replaceAll "{{promo_code}}" (promo_code_text program) comment in
  let comment := replaceAll "{{benefit}}" "it has specialized templates for blog posts, articles, and social media content" comment in
  let comment := replaceAll "{{feature}}" "the Boss Mode plan" comment in
  let comment := replaceAll "{{advantage}}" "write long-form content with AI continuing your thoughts" comment in
  let comment := replaceAll "{{reason}}" "of its versatility and user-friendly interface" comment in
  let comment := replaceAll "{{use_case}}" "blog posts and social media content" comment in
  let comment := replaceAll "{{use_case_1}}" "Blog post outlines" comment in
  let comment := replaceAll "{{use_case_2}}" "Full blog articles" comment in
  let comment := replaceAll "{{use_case_3}}" "Social media captions" comment in
  let comment := replaceAll "{{limitation}}" "the depth of long-form content generation" comment in
  let comment := replaceAll "{{drawback}}" "requires more editing" comment in
  let comment := replaceAll "{{improvement}}" "increased by 200%" comment in
  let comment := replaceAll "{{advantage_1}}" "Specialized templates for your exact content needs" comment in
  let comment := replaceAll "{{advantage_2}}" "High-quality output requiring minimal editing" comment in
  let comment := replaceAll "{{advantage_3}}" "Excellent customer support and regular updates" comment in
  let comment := replaceAll "{{plan}}" "Creator" comment in
  let comment := replaceAll "{{price}}" "$49" comment in
  let comment := replaceAll "{{result}}" "have seen a 70% reduction in content creation time" comment in
  let comment := replaceAll "{{discount}}" "20% off your first month" comment in
  comment.

Section GenerateComment.

(** [storage.getThreadById], [getAffiliateProgramById] and
    [getCommentTemplateById]; [None] is the not-found answer. *)
Variable getThreadById : Q -> outcome (option Thread).
Variable getAffiliateProgramById : Q -> outcome (option AffiliateProgram).
Variable getCommentTemplateById : Q -> outcome (option CommentTemplate).

Definition generate_comment_schema (body : json) : outcome (Q * Q * Q) :=
  z_object body (fun props =>
    match z_number (prop "threadId" props),
          z_number (prop "affiliateProgramId" props),
          z_number (prop "templateId" props) with
    | Returns t, Returns a, Returns c => Returns (t, a, c)
    | _, _, _ => Throws ZodError
    end).

Definition generate_comment_catch (e : exn) : reply string :=
  match e with
  | ZodError => Message 400 "Invalid request data"
  | Failure => Message 500 "Failed to generate comment"
  end.

Definition generate_comment (body : json) : reply string :=
  match generate_comment_schema body with
  | Throws e => generate_comment_catch e
  | Returns (threadId, affiliateProgramId, templateId) =>
      match getThreadById threadId with
      | Throws e => generate_comment_catch e
      | Returns thread =>
      match getAffiliateProgramById affiliateProgramId with
      | Throws e => generate_comment_catch e
      | Returns program =>
      match getCommentTemplateById templateId with
      | Throws e => generate_comment_catch e
      | Returns tmpl =>
          match thread, program, tmpl with
          | None, _, _ => Message 404 "Thread not found"
          | Some _, None, _ => Message 404 "Affiliate program not found"
          | Some _, Some _, None => Message 404 "Template not found"
          | Some _, Some program, Some tmpl =>
              Json 200 (fill_template program (template tmpl))
          end
      end end end
  end.

End GenerateComment.

(* ================================================================== *)
(** * GET /api/threads and GET /api/opportunities *)
(* ================================================================== *)

(** The filter object handed to [storage.getThreads]; [None] is a
    property that is [undefined] or left out. *)
Record ThreadFilters : Type := {
  by_subreddit : option string;
  by_intentType : option string;
  by_serpRank : option string;
  by_affiliateProgram : option string;
  by_search : option string;
  threads_limit : option number;
  threads_offset : option number;
  threads_sortBy : option string;
  threads_sortDirection : option string
}.

(** The filter object handed to [storage.getOpportunities]. *)
Record OpportunityFilters : Type := {
  by_threadId : option number;
  by_intent : option string;
  by_score : option number;
  by_scoreMin : option number;
  by_scoreMax : option number;
  by_serpMatch : option bool;
  by_action : option string;
  opportunities_limit : option number;
  opportunities_offset : option number;
  opportunities_sortBy : option string;
  opportunities_sortDirection : option string
}.

(** [req.query] of GET /api/threads: the parameters the handler reads. *)
Record ThreadsQuery : Type := {
  q_subreddit : option string;
  q_intentType : option string;
  q_serpRank : option string;
  q_affiliateProgram : option string;
  q_search : option string;
  q_threads_limit : option string;
  q_threads_offset : option string;
  q_threads_sortBy : option string;
  q_threads_sortDirection : option string
}.

(** [req.query] of GET /api/opportunities. *)
Record OpportunitiesQuery : Type := {
  q_threadId : option string;
  q_intent : option string;
  q_score : option string;
  q_scoreMin : option string;
  q_scoreMax : option string;
  q_serpMatch : option string;
  q_action : option string;
  q_limit : option string;
  q_offset : option string;
  q_sortBy : option string;
  q_sortDirection : option string
}.

(** The body of a listing answer: the page, the total, and the limit and
    offset echoed back. *)
Record Listing (A : Type) : Type := {
  listed : list A;
  total : nat;
  limit : number;
  offset : number
}.
Arguments listed {A} l.
Arguments total {A} l.
Arguments limit {A} l.
Arguments offset {A} l.

(** [(sortDirection as 'asc' | 'desc') || 'desc'] *)
Definition or_desc (sortDirection : option string) : string :=
  match sortDirection with
  | Some s => if String.eqb s "" then "desc" else s
  | None => "desc"
  end.

(** [serpMatch ? (serpMatch === 'true') : undefined] *)
Definition parse_serpMatch (serpMatch : option string) : option bool :=
  match serpMatch with
  | Some s => if String.eqb s "" then None else Some (String.eqb s "true")
  | None => None
  end.

(** The filter of the page request and of the total request. *)
Definition threads_page_filters (q : ThreadsQuery) : ThreadFilters :=
  {| by_subreddit := q_subreddit q;
     by_intentType := q_intentType q;
     by_serpRank := q_serpRank q;
     by_affiliateProgram := q_affiliateProgram q;
     by_search := q_search q;
     threads_limit := parse_if_truthy (with_default 10 (q_threads_limit q));
     threads_offset := parse_if_truthy (with_default 0 (q_threads_offset q));
     threads_sortBy := q_threads_sortBy q;
     threads_sortDirection := Some (or_desc (q_threads_sortDirection q)) |}.

Definition threads_total_filters (q : ThreadsQuery) : ThreadFilters :=
  {| by_subreddit := q_subreddit q;
     by_intentType := q_intentType q;
     by_serpRank := q_serpRank q;
     by_affiliateProgram := q_affiliateProgram q;
     by_search := q_search q;
     threads_limit := None;
     threads_offset := None;
     threads_sortBy := None;
     threads_sortDirection := None |}.

Definition opportunities_page_filters (q : OpportunitiesQuery) : OpportunityFilters :=
  {| by_threadId := parse_if_given (q_threadId q);
     by_intent := q_intent q;
     by_score := parse_if_given (q_score q);
     by_scoreMin := parse_if_given (q_scoreMin q);
     by_scoreMax := parse_if_given (q_scoreMax q);
     by_serpMatch := parse_serpMatch (q_serpMatch q);
     by_action := q_action q;
     opportunities_limit := parse_if_truthy (with_default 10 (q_limit q));
     opportunities_offset := parse_if_truthy (with_default 0 (q_offset q));
     opportunities_sortBy := q_sortBy q;
     opportunities_sortDirection := Some (or_desc (q_sortDirection q)) |}.

Definition opportunities_total_filters (q : OpportunitiesQuery) : OpportunityFilters :=
  {| by_threadId := parse_if_given (q_threadId q);
     by_intent := q_intent q;
     by_score := parse_if_given (q_score q);
     by_scoreMin := parse_if_given (q_scoreMin q);
     by_scoreMax := parse_if_given (q_scoreMax q);
     by_serpMatch := parse_serpMatch (q_serpMatch q);
     by_action := q_action q;
     opportunities_limit := None;
     opportunities_offset := None;
     opportunities_sortBy := None;
     opportunities_sortDirection := None |}.

Section Listings.

(** [storage.getThreads] and [storage.getOpportunities] *)
Variable getThreads : ThreadFilters -> outcome (list Thread).
Variable getOpportunities : OpportunityFilters -> outcome (list Opportunity).

Definition list_threads (q : ThreadsQuery) : reply (Listing Thread) :=
  match getThreads (threads_page_filters q) with
  | Throws _ => Message 500 "Failed to fetch threads"
  | Returns threads =>
      match getThreads (threads_total_filters q) with
      | Throws _ => Message 500 "Failed to fetch threads"
      | Returns all =>
          Json 200
            {| listed := threads;
               total := List.length all;
               limit := parseInt_param (with_default 10 (q_threads_limit q));
               offset := parseInt_param (with_default 0 (q_threads_offset q)) |}
      end
  end.

Definition list_opportunities (q : OpportunitiesQuery)
  : reply (Listing Opportunity) :=
  match getOpportunities (opportunities_page_filters q) with
  | Throws _ => Message 500 "Failed to fetch opportunities"
  | Returns opportunities =>
      match getOpportunities (opportunities_total_filters q) with
      | Throws _ => Message 500 "Failed to fetch opportunities"
      | Returns all =>
          Json 200
            {| listed := opportunities;
               total := List.length all;
               limit := parseInt_param (with_default 10 (q_limit q));
               offset := parseInt_param (with_default 0 (q_offset q)) |}
      end
  end.

End Listings.

(* ================================================================== *)
(** * The scheduler routes and POST /api/refresh-opportunities *)
(* ================================================================== *)

Section SchedulerRoutes.

(** The process-wide [crawlerScheduler] object: its state and the three
    methods the routes call. *)
Variable Sched : Type.
Variable startCrawlerJob : Sched -> outcome bool * Sched.
Variable stopCrawlerJob : Sched -> outcome bool * Sched.
Variable runCrawlerNow : Sched -> outcome unit * Sched.

Definition scheduler_start (s : Sched) : reply unit * Sched :=
  match startCrawlerJob s with
  | (Returns true, s') => (Message 200 "Crawler job scheduled successfully", s')
  | (Returns false, s') => (Message 400 "Crawler job is already running", s')
  | (Throws _, s') => (Message 500 "Failed to start crawler job", s')
  end.

Definition scheduler_stop (s : Sched) : reply unit * Sched :=
  match stopCrawlerJob s with
  | (Returns true, s') => (Message 200 "Crawler job stopped successfully", s')
  | (Returns false, s') => (Message 400 "No crawler job is running", s')
  | (Throws _, s') => (Message 500 "Failed to stop crawler job", s')
  end.

Definition scheduler_run_now (s : Sched) : reply unit * Sched :=
  match runCrawlerNow s with
  | (Returns _, s') => (Message 200 "Crawler job triggered successfully", s')
  | (Throws _, s') => (Message 500 "Failed to trigger crawler job", s')
  end.

(** The last statements of [registerRoutes]: the scheduler is started
    when the routes are registered. *)
Definition registerRoutes (s : Sched) : Sched :=
  snd (startCrawlerJob s).

End SchedulerRoutes.

Section RefreshRoute.

Variable Store : Type.
(** [storage.refreshOpportunities] *)
Variable refreshOpportunities : Store -> outcome nat * Store.

Definition decimal (n : nat) : string :=
  NilZero.string_of_uint (Nat.to_uint n).

(** The answer is [{ count, message }]. *)
Definition refresh_opportunities (st : Store) : reply (nat * string) * Store :=
  match refreshOpportunities st with
  | (Returns count, st') =>
      (Json 200 (count, "Refreshed " ++ decimal count ++ " opportunities"), st')
  | (Throws _, st') => (Message 500 "Failed to refresh opportunities", st')
  end.

End RefreshRoute.

(* ================================================================== *)
(** * The crawl scheduler *)
(* ================================================================== *)

Module Scheduler.

(** Modelled from the spec: the modes of the scheduler of
    [server/scheduler.ts], a file that is missing from the development. *)
Inductive Mode : Type := STOPPED | SCHEDULED | RUNNING.

(** Modelled from the spec: the state of [crawlerScheduler]
    ([server/scheduler.ts], missing). SchedulerState is the current mode,
    the handle of the pending periodic trigger (here: whether one is
    armed) and the flag saying whether a run is in flight. *)
Record State : Type := {
  mode : Mode;
  timerArmed : bool;
  inFlight : bool
}.

(** Modelled from the spec: the initial state of [crawlerScheduler]
    ([server/scheduler.ts], missing). The scheduler of a fresh process is
    STOPPED, with no timer and no run in flight. *)
Definition initial : State :=
  {| mode := STOPPED; timerArmed := false; inFlight := false |}.

(** Modelled from the spec: the body of [startCrawlerJob]
    ([server/scheduler.ts], missing). [start()] takes STOPPED to SCHEDULED
    and arms the timer; it returns false and does nothing when the
    scheduler is already SCHEDULED or RUNNING. *)
Definition start (s : State) : bool * State :=
  match mode s with
  | STOPPED =>
      (true, {| mode := SCHEDULED; timerArmed := true; inFlight := inFlight s |})
  | SCHEDULED | RUNNING => (false, s)
  end.

(** Modelled from the spec: the body of [stopCrawlerJob]
    ([server/scheduler.ts], missing). [stop()] takes SCHEDULED to STOPPED
    and cancels the timer; it returns false when the scheduler is not
    SCHEDULED. Requested during a run it leaves the run alone and cancels
    the timer, so that the run ends in STOPPED. *)
Definition stop (s : State) : bool * State :=
  match mode s with
  | SCHEDULED =>
      (true, {| mode := STOPPED; timerArmed := false; inFlight := inFlight s |})
  | RUNNING =>
      (false, {| mode := RUNNING; timerArmed := false; inFlight := inFlight s |})
  | STOPPED => (false, s)
  end.

(** Modelled from the spec: the status query of the scheduler
    ([server/scheduler.ts], missing). [status()] returns the mode and
    changes nothing. *)
Definition status (s : State) : Mode := mode s.

(** Modelled from the spec: the entry of a crawl pass in the scheduler
    ([server/scheduler.ts], missing). A pass begins by entering RUNNING
    with the in-flight flag set, the timer untouched. *)
Definition begin_pass (s : State) : State :=
  {| mode := RUNNING; timerArmed := timerArmed s; inFlight := true |}.

(** Modelled from the spec: the exit of a crawl pass in the scheduler
    ([server/scheduler.ts], missing). When the pass is over the scheduler
    goes back to SCHEDULED if the timer is still armed and to STOPPED if
    not. *)
Definition end_pass (s : State) : State :=
  {| mode := if timerArmed s then SCHEDULED else STOPPED;
     timerArmed := timerArmed s;
     inFlight := false |}.

(** What the scheduler did with a request to run a pass. *)
Inductive Admission : Type :=
| Started    (* a crawl pass was handed to the Orchestrator *)
| Rejected   (* runNow while a run is in flight *)
| Skipped    (* timer tick while a run is in flight: dropped *)
| Idle.      (* nothing to do *)

(** Modelled from the spec: the guard of [runCrawlerNow]
    ([server/scheduler.ts], missing). [runNow()] starts a pass from
    STOPPED or SCHEDULED and is rejected while a run is in flight. *)
Definition runNow (s : State) : Admission * State :=
  if inFlight s then (Rejected, s) else (Started, begin_pass s).

(** Modelled from the spec: the callback of the periodic timer
    ([server/scheduler.ts], missing). A tick of the armed timer starts a
    pass; a tick while RUNNING is dropped, not queued. A cancelled timer
    does not tick. *)
Definition timerFire (s : State) : Admission * State :=
  if timerArmed s
  then if inFlight s then (Skipped, s) else (Started, begin_pass s)
  else (Idle, s).

(** The scheduler together with the number of Orchestrator executions
    that were started and have not finished. *)
Record System : Type := {
  scheduler : State;
  activePasses : nat
}.

Definition boot : System := {| scheduler := initial; activePasses := 0 |}.

(** What can happen to the scheduler: the four requests, a tick of the
    timer, and the return of the Orchestrator from a pass. *)
Inductive Event : Type :=
| EStart | EStop | ERunNow | ETimerFire | EStatus
| EPassFinished.   (* the Orchestrator returns from a pass *)

(** A pass that was started is one more active pass. *)
Definition record_pass (a : Admission * State) (active : nat) : System :=
  match a with
  | (Started, s) => {| scheduler := s; activePasses := S active |}
  | (_, s) => {| scheduler := s; activePasses := active |}
  end.

(** One event. A pass can only finish while one is active. *)
Definition step (sys : System) (e : Event) : System :=
  match e with
  | EStart =>
      {| scheduler := snd (start (scheduler sys)); activePasses := activePasses sys |}
  | EStop =>
      {| scheduler := snd (stop (scheduler sys)); activePasses := activePasses sys |}
  | ERunNow => record_pass (runNow (scheduler sys)) (activePasses sys)
  | ETimerFire => record_pass (timerFire (scheduler sys)) (activePasses sys)
  | EStatus => sys
  | EPassFinished =>
      match activePasses sys with
      | O => sys
      | S n => {| scheduler := end_pass (scheduler sys); activePasses := n |}
      end
  end.

Definition run (sys : System) (events : list Event) : System :=
  fold_left step events sys.

(** The in-flight flag counts the active passes, and the mode is
    RUNNING exactly while the flag is set. *)
Definition consistent (sys : System) : Prop :=
  activePasses sys = (if inFlight (scheduler sys) then 1 else 0)%nat
  /\ (mode (scheduler sys) = RUNNING <-> inFlight (scheduler sys) = true).

(** Modelled from the spec: [crawlerScheduler.startCrawlerJob]
    ([server/scheduler.ts], missing) as the route calls it: the boolean
    of [start()], never an exception. *)
Definition startCrawlerJob (s : State) : outcome bool * State :=
  let (ok, s') := start s in (Returns ok, s').

(** Modelled from the spec: [crawlerScheduler.stopCrawlerJob]
    ([server/scheduler.ts], missing) as the route calls it: the boolean
    of [stop()], never an exception. *)
Definition stopCrawlerJob (s : State) : outcome bool * State :=
  let (ok, s') := stop s in (Returns ok, s').

(** Modelled from the spec: [crawlerScheduler.runCrawlerNow]
    ([server/scheduler.ts], missing) as the route awaits it. A rejected
    [runNow()] is the distinguishable error; an accepted one awaits the
    pass, so the call returns with the pass finished. *)
Definition runCrawlerNow (s : State) : outcome unit * State :=
  match runNow s with
  | (Started, s') => (Returns tt, end_pass s')
  | (_, s') => (Throws Failure, s')
  end.

End Scheduler.

(* ================================================================== *)
(** * The filter/query engine *)
(* ================================================================== *)

(** [a <= b] and [a === b] on JavaScript numbers: false when either is
    [NaN]. *)
Definition num_leb (a b : number) : bool :=
  match a, b with
  | Num x, Num y => Qle_bool x y
  | Infinity true, (Num _ | Infinity _) => true
  | (Num _ | Infinity _), Infinity false => true
  | _, _ => false
  end.

Definition num_eqb (a b : number) : bool :=
  match a, b with
  | Num x, Num y => Qeq_bool x y
  | Infinity n, Infinity n' => Bool.eqb n n'
  | _, _ => false
  end.

(** A predicate that was not supplied holds of every item. *)
Definition supplied {V A : Type} (v : option V) (test : V -> A -> bool) (a : A) : bool :=
  match v with
  | Some x => test x a
  | None => true
  end.

(** A limit or an offset that is a natural number. *)
Definition as_count (n : number) : option nat :=
  match n with
  | Num q =>
      let r := Qred q in
      if (Qden r =? 1)%positive && (0 <=? Qnum r) then Some (Z.to_nat (Qnum r))
      else None
  | NaN | Infinity _ => None
  end.

(** Modelled from the spec: the defaults of the pagination of the
    listings of [server/storage.ts] (missing). A bound of a page is the
    number supplied, and the default when none is supplied. The spec does
    not say what a supplied bound does that is not a natural number; the
    default is used for it too. *)
Definition bound_or (default : nat) (bound : option number) : nat :=
  match option_map as_count bound with
  | Some (Some n) => n
  | _ => default
  end.

Section Engine.

Variable A : Type.
(** The identifier of an item and the comparison of two items by a
    named field. *)
Variable ident : A -> Z.
Variable compare_by : string -> A -> A -> comparison.

(** Modelled from the spec: the sort direction of the listings of
    [server/storage.ts], a file that is missing from the development.
    Ascending when asked for, descending otherwise. *)
Definition ascending (sortDirection : option string) : bool :=
  match sortDirection with
  | Some s => String.eqb s "asc"
  | None => false
  end.

(** Modelled from the spec: the sort order of the listings of
    [server/storage.ts] (missing). The order of a listing is the order of
    the named field in the asked direction, ties broken by identifier. *)
Definition precedes (field : string) (asc : bool) (a b : A) : bool :=
  match compare_by field a b with
  | Lt => asc
  | Gt => negb asc
  | Eq => ident a <=? ident b
  end.

(** Modelled from the spec: the sort of the listings of
    [server/storage.ts] (missing), as an insertion sort in that order. *)
Fixpoint insert_sorted (field : string) (asc : bool) (a : A) (l : list A) : list A :=
  match l with
  | [] => [a]
  | b :: rest =>
      if precedes field asc a b then a :: l
      else b :: insert_sorted field asc a rest
  end.

Definition sort_items (field : string) (asc : bool) (l : list A) : list A :=
  fold_right (insert_sorted field asc) [] l.

(** Modelled from the spec: the pagination of the listings of
    [server/storage.ts] (missing). It skips [offset] items and keeps
    [limit] items, with the defaults limit = 10 and offset = 0. *)
Definition paginate (limit offset : option number) (l : list A) : list A :=
  firstn (bound_or 10 limit) (skipn (bound_or 0 offset) l).

(** Modelled from the spec: the body shared by [getThreads] and
    [getOpportunities] of [server/storage.ts] (missing). [query] keeps the
    items that satisfy every supplied predicate, sorts them, and cuts the
    page out. *)
Definition query (matches : A -> bool) (default_field : string)
  (sortBy sortDirection : option string) (limit offset : option number)
  (items : list A) : list A :=
  paginate limit offset
    (sort_items (match sortBy with Some f => f | None => default_field end)
       (ascending sortDirection)
       (filter matches items)).

(** Modelled from the spec: the unpaged count the engine exposes for
    the same predicates ([server/storage.ts], missing). *)
Definition count (matches : A -> bool) (items : list A) : nat :=
  List.length (filter matches items).

End Engine.

(* ================================================================== *)
(** * The storage and the opportunity scoring engine *)
(* ================================================================== *)

(** Modelled from the spec: the configuration of the scoring engine of
    [server/storage.ts] (missing): the tunable weights, the normalization
    of the engagement metric and the threshold of the score. *)
Record Weights : Type := {
  programWeight : Q;
  intentBonus : Q;
  serpBonus : Q;
  engagementWeight : Q;
  normalize : Z -> Q;
  commentThreshold : Q
}.

Module Storage.

(** Modelled from the spec: the state of [storage]
    ([server/storage.ts], missing). The store holds the threads, the
    reference data, the SERP checks, the opportunities and the next
    opportunity identifier. *)
Record Store : Type := {
  threads : list Thread;
  programs : list AffiliateProgram;
  serpResults : list SerpResult;
  opportunities : list Opportunity;
  nextOpportunityId : Z
}.

(** ** Listing *)

(** Modelled from the spec: the filter of [storage.getOpportunities]
    ([server/storage.ts], missing). The predicates of an opportunity
    listing are all optional and conjunctive; the score range is closed. *)
Definition opportunity_matches (f : OpportunityFilters) (o : Opportunity) : bool :=
  supplied (by_threadId f) (fun n o => num_eqb (int (threadId o)) n) o
  && supplied (by_intent f)
       (fun s o => match intent o with Some i => String.eqb i s | None => false end) o
  && supplied (by_score f) (fun n o => num_eqb (Num (score o)) n) o
  && supplied (by_scoreMin f) (fun n o => num_leb n (Num (score o))) o
  && supplied (by_scoreMax f) (fun n o => num_leb (Num (score o)) n) o
  && supplied (by_serpMatch f) (fun b o => Bool.eqb (serpMatch o) b) o
  && supplied (by_action f) (fun s o => String.eqb (action o) s) o.

Section Listing.

(** How two records compare by a named field, and the two thread
    predicates the spec does not describe. *)
Variable compare_threads : string -> Thread -> Thread -> comparison.
Variable compare_opportunities : string -> Opportunity -> Opportunity -> comparison.
Variable serpRank_matches : string -> Thread -> bool.
Variable affiliateProgram_matches : string -> Thread -> bool.

(** Modelled from the spec: the filter of [storage.getThreads]
    ([server/storage.ts], missing). The predicates of a thread listing
    are source, intent and free-text search over title and body, and the
    two the spec leaves open. *)
Definition thread_matches (f : ThreadFilters) (t : Thread) : bool :=
  supplied (by_subreddit f) (fun s t => String.eqb (subreddit t) s) t
  && supplied (by_intentType f) (fun s t => String.eqb (intentType t) s) t
  && supplied (by_serpRank f) serpRank_matches t
  && supplied (by_affiliateProgram f) affiliateProgram_matches t
  && supplied (by_search f) (fun s t => includes s (title t) || includes s (body t)) t.

(** Modelled from the spec: [storage.getThreads] ([server/storage.ts],
    missing). Listing threads, by default most recent first. *)
Definition getThreads (st : Store) (f : ThreadFilters) : outcome (list Thread) :=
  Returns
    (query Thread thread_id compare_threads (thread_matches f) "crawledAt"
       (threads_sortBy f) (threads_sortDirection f)
       (threads_limit f) (threads_offset f) (threads st)).

(** Modelled from the spec: [storage.getOpportunities]
    ([server/storage.ts], missing). Listing opportunities, by default
    highest score first. *)
Definition getOpportunities (st : Store) (f : OpportunityFilters)
  : outcome (list Opportunity) :=
  Returns
    (query Opportunity opportunity_id compare_opportunities
       (opportunity_matches f) "score"
       (opportunities_sortBy f) (opportunities_sortDirection f)
       (opportunities_limit f) (opportunities_offset f) (opportunities st)).

End Listing.

(** ** Scoring *)

(** Lower case of the letters A to Z. *)
Definition lower_char (c : ascii) : ascii :=
  let n := nat_of_ascii c in
  if ((65 <=? n) && (n <=? 90))%nat then ascii_of_nat (n + 32) else c.

Fixpoint lower (s : string) : string :=
  match s with
  | EmptyString => EmptyString
  | String c rest => String (lower_char c) (lower rest)
  end.

(** Modelled from the spec: the keyword test of the scoring engine
    ([server/storage.ts], missing). A keyword appears in a text when it
    is a substring of it, letter case ignored. *)
Definition mentions (keyword text : string) : bool :=
  includes (lower keyword) (lower text).

(** Modelled from the spec: the program test of the scoring engine
    ([server/storage.ts], missing). A program matches when one of its
    keywords appears in the title or in the body. *)
Definition program_matches (t : Thread) (p : AffiliateProgram) : bool :=
  existsb (fun k => mentions k (title t) || mentions k (body t)) (keywords p).

(** Modelled from the spec: the keyword-match set of the scoring
    engine ([server/storage.ts], missing): the distinct identifiers of
    the matching programs. *)
Definition matched_programs (ps : list AffiliateProgram) (t : Thread) : list Z :=
  nodup Z.eq_dec (map program_id (filter (program_matches t) ps)).

(** Modelled from the spec: the SERP signal of the scoring engine
    ([server/storage.ts], missing). SERP match holds iff a SerpResult of
    the thread has the ranked flag set. *)
Definition serp_matched (rs : list SerpResult) (t : Thread) : bool :=
  existsb (fun r => Qeq_bool (serp_threadId r) (inject_Z (thread_id t))
                    && serp_isRanked r) rs.

(** Modelled from the spec: the intents that earn the bonus
    ([server/storage.ts], missing): COMPARISON and REVIEW. *)
Definition commercial_intent (i : string) : bool :=
  String.eqb i "COMPARISON" || String.eqb i "REVIEW".

(** Modelled from the spec: the score of the scoring engine
    ([server/storage.ts], missing). It is the weighted combination of the
    number of matched programs, the intent bonus, the SERP bonus and the
    normalized engagement. *)
Definition score_of (w : Weights) (matched : list Z) (serp : bool) (t : Thread) : Q :=
  (programWeight w * inject_Z (Z.of_nat (List.length matched))
   + (if commercial_intent (intentType t) then intentBonus w else 0)
   + (if serp then serpBonus w else 0)
   + engagementWeight w * normalize w (upvotes t))%Q.

(** Modelled from the spec: the recommended action of the scoring
    engine ([server/storage.ts], missing). No matched program gives SKIP;
    otherwise a score above the threshold gives COMMENT and any other
    WATCH. *)
Definition action_of (w : Weights) (matched : list Z) (s : Q) : string :=
  match matched with
  | [] => "SKIP"
  | _ :: _ => if Qle_bool s (commentThreshold w) then "WATCH" else "COMMENT"
  end.

(** Modelled from the spec: the row the scoring engine writes for a
    thread ([server/storage.ts], missing), for the row identifier [id]. *)
Definition assess (w : Weights) (ps : list AffiliateProgram) (rs : list SerpResult)
  (now : Z) (t : Thread) (id : Z) : Opportunity :=
  let matched := matched_programs ps t in
  let serp := serp_matched rs t in
  let s := score_of w matched serp t in
  {| opportunity_id := id;
     threadId := thread_id t;
     score := s;
     intent := Some (intentType t);
     matchedProgramIds := matched;
     serpMatch := serp;
     action := action_of w matched s;
     updatedAt := now |}.

(** Modelled from the spec: the update half of the upsert
    ([server/storage.ts], missing). Overwrite the opportunity of a
    thread, if there is one, keeping its identifier. *)
Fixpoint overwrite (mk : Z -> Opportunity) (tid : Z) (rows : list Opportunity)
  : option (list Opportunity) :=
  match rows with
  | [] => None
  | o :: rest =>
      if threadId o =? tid then Some (mk (opportunity_id o) :: rest)
      else option_map (cons o) (overwrite mk tid rest)
  end.

(** Modelled from the spec: the upsert of an opportunity
    ([server/storage.ts], missing), keyed by thread identifier; a new
    row takes the next identifier. *)
Definition upsert (mk : Z -> Opportunity) (tid : Z)
  (table : list Opportunity * Z) : list Opportunity * Z :=
  let (rows, next) := table in
  match overwrite mk tid rows with
  | Some rows' => (rows', next)
  | None => ((rows ++ [mk next])%list, next + 1)
  end.

(** Modelled from the spec: the body of [storage.refreshOpportunities]
    ([server/storage.ts], missing). [refreshAll] upserts the opportunity
    of every persisted thread, counting the rows it writes, and returns
    the count. *)
Definition refreshAll (w : Weights) (now : Z) (st : Store) : nat * Store :=
  let result :=
    fold_left
      (fun acc t =>
         (S (fst acc),
          upsert (assess w (programs st) (serpResults st) now t)
            (thread_id t) (snd acc)))
      (threads st) (0%nat, (opportunities st, nextOpportunityId st)) in
  (fst result,
   {| threads := threads st;
      programs := programs st;
      serpResults := serpResults st;
      opportunities := fst (snd result);
      nextOpportunityId := snd (snd result) |}).

(** Modelled from the spec: [storage.refreshOpportunities]
    ([server/storage.ts], missing) as the route calls it. *)
Definition refreshOpportunities (w : Weights) (now : Z) (st : Store)
  : outcome nat * Store :=
  let (n, st') := refreshAll w now st in (Returns n, st').

(** An opportunity row without its last-computed timestamp. *)
Definition content (o : Opportunity) : Opportunity :=
  {| opportunity_id := opportunity_id o;
     threadId := threadId o;
     score := score o;
     intent := intent o;
     matchedProgramIds := matchedProgramIds o;
     serpMatch := serpMatch o;
     action := action o;
     updatedAt := 0 |}.

End Storage.

(* ================================================================== *)
(** * Vocabulary of the statements and example data *)
(* ================================================================== *)

(** The crawler service of the examples: it answers with the number of
    subreddits it was given. *)
Definition counting_crawler (subs : list string) : outcome nat :=
  Returns (List.length subs).

(** The storage of the examples: it stores a SERP check as given. *)
Definition store_as_given (d : InsertSerpResult) : outcome SerpResult :=
  Returns {| serp_id := 1;
             serp_threadId := new_threadId d;
             serp_query := new_query d;
             serp_position := Some (new_position d);
             serp_isRanked := new_isRanked d;
             checkedAt := 0 |}.



(** What a limit or offset parameter asks for: the default when the
    parameter is left out or empty, and otherwise the natural number
    [parseInt] reads in it. *)
Definition asks_for (default : nat) (param : option string) (n : nat) : Prop :=
  match param with
  | None => n = default
  | Some s => if String.eqb s "" then n = default
              else parseInt s = int (Z.of_nat n)
  end.

(** The number echoed back for such a parameter: [parseInt] of the empty
    text is [NaN]. *)
Definition echoed (param : option string) (n : nat) : number :=
  match param with
  | Some s => if String.eqb s "" then NaN else int (Z.of_nat n)
  | None => int (Z.of_nat n)
  end.

(** A predicate named by a text parameter, and one named by a numeric
    parameter; a numeric parameter that is empty names none. *)
Definition text_wanted {A : Type} (param : option string)
  (test : string -> A -> bool) (a : A) : bool :=
  match param with
  | Some s => test s a
  | None => true
  end.

Definition number_wanted {A : Type} (param : option string)
  (test : number -> A -> bool) (a : A) : bool :=
  match param with
  | Some s => if String.eqb s "" then true else test (parseInt s) a
  | None => true
  end.

(** The opportunities a query asks for, read off the query string and
    not off the filter object of the handler: every predicate the query
    string names holds (the predicates are conjunctive). *)
Definition opportunity_wanted (q : OpportunitiesQuery) (o : Opportunity) : bool :=
  number_wanted (q_threadId q) (fun n o => num_eqb (int (threadId o)) n) o
  && text_wanted (q_intent q)
       (fun s o => match intent o with Some i => String.eqb i s | None => false end) o
  && number_wanted (q_score q) (fun n o => num_eqb (Num (score o)) n) o
  && number_wanted (q_scoreMin q) (fun n o => num_leb n (Num (score o))) o
  && number_wanted (q_scoreMax q) (fun n o => num_leb (Num (score o)) n) o
  && match q_serpMatch q with
     | Some s => if String.eqb s "" then true
                 else Bool.eqb (serpMatch o) (String.eqb s "true")
     | None => true
     end
  && text_wanted (q_action q) (fun s o => String.eqb (action o) s) o.

(** The whole answer to an opportunity query: the opportunities asked
    for, in the order asked for, by default highest score first. *)
Definition opportunities_wanted
  (compare_opportunities : string -> Opportunity -> Opportunity -> comparison)
  (st : Storage.Store) (q : OpportunitiesQuery) : list Opportunity :=
  sort_items Opportunity opportunity_id compare_opportunities
    (match q_sortBy q with Some f => f | None => "score" end)
    (ascending (q_sortDirection q))
    (filter (opportunity_wanted q) (Storage.opportunities st)).

Section ThreadsWanted.

Variable compare_threads : string -> Thread -> Thread -> comparison.
Variable serpRank_matches : string -> Thread -> bool.
Variable affiliateProgram_matches : string -> Thread -> bool.

(** The threads a query asks for, read off the query string likewise. *)
Definition thread_wanted (q : ThreadsQuery) (t : Thread) : bool :=
  text_wanted (q_subreddit q) (fun s t => String.eqb (subreddit t) s) t
  && text_wanted (q_intentType q) (fun s t => String.eqb (intentType t) s) t
  && text_wanted (q_serpRank q) serpRank_matches t
  && text_wanted (q_affiliateProgram q) affiliateProgram_matches t
  && text_wanted (q_search q)
       (fun s t => includes s (title t) || includes s (body t)) t.

(** The whole answer to a thread query: the threads asked for, in the
    order asked for, by default most recent first. *)
Definition threads_wanted (st : Storage.Store) (q : ThreadsQuery) : list Thread :=
  sort_items Thread thread_id compare_threads
    (match q_threads_sortBy q with Some f => f | None => "crawledAt" end)
    (ascending (q_threads_sortDirection q))
    (filter (thread_wanted q) (Storage.threads st)).

End ThreadsWanted.

(** The score of an opportunity lies in the closed interval. *)
Definition in_score_range (lo hi : Z) (o : Opportunity) : bool :=
  Qle_bool (inject_Z lo) (score o) && Qle_bool (score o) (inject_Z hi).

(** The opportunities of a store within a score range, in the order
    asked for. *)
Definition score_range_wanted
  (compare_opportunities : string -> Opportunity -> Opportunity -> comparison)
  (st : Storage.Store) (lo hi : Z) (sortBy sortDirection : option string)
  : list Opportunity :=
  sort_items Opportunity opportunity_id compare_opportunities
    (match sortBy with Some f => f | None => "score" end)
    (ascending sortDirection)
    (filter (in_score_range lo hi) (Storage.opportunities st)).

(** An unsorted small table of threads and of opportunities. *)
Definition thread_numbered (n : Z) : Thread :=
  {| thread_id := n; subreddit := "SEO"; title := "Is Jasper worth it?";
     body := "Comparing AI writers"; upvotes := n; intentType := "COMPARISON";
     crawledAt := n |}.

Definition opportunity_scored (n : Z) (s : Z) : Opportunity :=
  {| opportunity_id := n; threadId := n; score := inject_Z s;
     intent := Some "COMPARISON"; matchedProgramIds := [1]; serpMatch := true;
     action := "COMMENT"; updatedAt := 0 |}.


Definition by_score_value (_ : string) (a b : Opportunity) : comparison :=
  Qcompare (score a) (score b).

(** ** Templates as texts and placeholders *)

Definition is_brace (c : ascii) : bool :=
  Ascii.eqb c "{" || Ascii.eqb c "}".

(** No brace occurs in the text. *)
Fixpoint brace_free (s : string) : bool :=
  match s with
  | EmptyString => true
  | String c rest => negb (is_brace c) && brace_free rest
  end.

(** No opening brace occurs in the text. *)
Fixpoint no_open (s : string) : bool :=
  match s with
  | EmptyString => true
  | String c rest => negb (Ascii.eqb c "{") && no_open rest
  end.

(** The replacement text holds none of the patterns [$$], [$&], [$`]
    and [$']. *)
Fixpoint plain (r : string) : bool :=
  match r with
  | EmptyString => true
  | String c tail =>
      if Ascii.eqb c "$" then
        match tail with
        | String d _ =>
            negb (Ascii.eqb d "$" || Ascii.eqb d "&" || Ascii.eqb d "`"
                  || Ascii.eqb d "'")
            && plain tail
        | EmptyString => true
        end
      else plain tail
  end.

Inductive token : Type :=
| Text (s : string)
| Hole (placeholder_name : string).

Definition placeholder (n : string) : string := "{{" ++ n ++ "}}".

Definition render (t : token) : string :=
  match t with
  | Text s => s
  | Hole n => placeholder n
  end.

Fixpoint flatten (toks : list token) : string :=
  match toks with
  | [] => EmptyString
  | t :: rest => render t ++ flatten rest
  end.

(** The names of the recognized placeholders, in the order in which the
    handler replaces them. *)
Definition recognized_names : list string :=
  ["program"; "link"; "promo_code"; "benefit"; "feature"; "advantage";
   "reason"; "use_case"; "use_case_1"; "use_case_2"; "use_case_3";
   "limitation"; "drawback"; "improvement"; "advantage_1"; "advantage_2";
   "advantage_3"; "plan"; "price"; "result"; "discount"].

(** The value the handler gives each placeholder name. *)
Definition substitutions (program : AffiliateProgram) : list (string * string) :=
  [("program", name program); ("link", link program);
   ("promo_code", promo_code_text program);
   ("benefit", "it has specialized templates for blog posts, articles, and social media content");
   ("feature", "the Boss Mode plan");
   ("advantage", "write long-form content with AI continuing your thoughts");
   ("reason", "of its versatility and user-friendly interface");
   ("use_case", "blog posts and social media content");
   ("use_case_1", "Blog post outlines");
   ("use_case_2", "Full blog articles");
   ("use_case_3", "Social media captions");
   ("limitation", "the depth of long-form content generation");
   ("drawback", "requires more editing");
   ("improvement", "increased by 200%");
   ("advantage_1", "Specialized templates for your exact content needs");
   ("advantage_2", "High-quality output requiring minimal editing");
   ("advantage_3", "Excellent customer support and regular updates");
   ("plan", "Creator");
   ("price", "$49");
   ("result", "have seen a 70% reduction in content creation time");
   ("discount", "20% off your first month")].

Fixpoint lookup (n : string) (subs : list (string * string)) : option string :=
  match subs with
  | [] => None
  | (m, v) :: rest => if String.eqb n m then Some v else lookup n rest
  end.

(** A placeholder with a value becomes that value. *)
Definition fill_token (subs : list (string * string)) (t : token) : token :=
  match t with
  | Text _ => t
  | Hole n => match lookup n subs with Some v => Text v | None => t end
  end.

(** A template token: brace-free text, or a recognized placeholder. *)
Definition well_formed (t : token) : bool :=
  match t with
  | Text s => brace_free s
  | Hole n => brace_free n && existsb (String.eqb n) recognized_names
  end.

(** A token whose text, or whose placeholder name, holds no brace. *)
Definition brace_free_token (t : token) : bool :=
  match t with
  | Text s => brace_free s
  | Hole n => brace_free n
  end.

(** A value that replaces as it is written and brings no brace. *)
Definition literal (v : string) : bool := plain v && brace_free v.

(** The storage of the examples for the comment generator. *)
Definition jasper : AffiliateProgram :=
  {| program_id := 1; name := "Jasper"; link := "https://jasper.example/try";
     promoCode := None; keywords := ["jasper"] |}.

(** A program whose name is itself the text of a placeholder. *)
Definition echo : AffiliateProgram :=
  {| program_id := 2; name := "{{program}}"; link := "https://echo.example";
     promoCode := None; keywords := [] |}.

Definition sample_template : list token :=
  [Text "I use "; Hole "program"; Text " ("; Hole "link"; Text ") for ";
   Hole "use_case"; Text ". "; Hole "program"; Text " costs "; Hole "price";
   Text " with code "; Hole "promo_code"; Text "."].

Definition find_thread (_ : Q) : outcome (option Thread) :=
  Returns (Some {| thread_id := 7; subreddit := "SEO"; title := "AI writers?";
                   body := "Which one?"; upvotes := 12; intentType := "QUESTION";
                   crawledAt := 0 |}).

Definition find_program (p : AffiliateProgram) (_ : Q)
  : outcome (option AffiliateProgram) :=
  Returns (Some p).

Definition find_template (text : string) (_ : Q)
  : outcome (option CommentTemplate) :=
  Returns (Some {| template_id := 3; template_type := "QUESTION";
                   template := text |}).

Definition comment_request : json :=
  JObj [("threadId", JNum 7%Q); ("affiliateProgramId", JNum 1%Q);
        ("templateId", JNum 3%Q)].

(** Rewrite the first opportunity of a thread, if there is one; the
    total form of [Storage.overwrite]. *)
Fixpoint rewrite_first (mk : Z -> Opportunity) (tid : Z) (rows : list Opportunity)
  : list Opportunity :=
  match rows with
  | [] => []
  | o :: rest =>
      if threadId o =? tid then mk (opportunity_id o) :: rest
      else o :: rewrite_first mk tid rest
  end.

(** Some opportunity of the table belongs to the thread. *)
Definition covers (rows : list Opportunity) (tid : Z) : bool :=
  existsb (fun o => threadId o =? tid) rows.

(** A write of the refresh: the thread identifier and the row to store
    under a given row identifier. *)
Definition write : Type := (Z * (Z -> Opportunity))%type.

(** A write keeps the row identifier and stores under its own thread. *)
Definition keyed (w : write) : Prop :=
  forall id, opportunity_id (snd w id) = id /\ threadId (snd w id) = fst w.

(** A pass of upserts, and the same pass with every write rewriting. *)
Definition upsert_all (ws : list write) (table : list Opportunity * Z)
  : list Opportunity * Z :=
  fold_left (fun table w => Storage.upsert (snd w) (fst w) table) ws table.

Definition rewrite_all (ws : list write) (rows : list Opportunity)
  : list Opportunity :=
  fold_left (fun rows w => rewrite_first (snd w) (fst w) rows) ws rows.

(** The writes of one refresh. *)
Definition writes_of (w : Weights) (now : Z) (st : Storage.Store) : list write :=
  map (fun t => (thread_id t,
                 Storage.assess w (Storage.programs st) (Storage.serpResults st)
                   now t))
    (Storage.threads st).

(** The first opportunity row of a thread, the last write of a pass to a
    thread, and the last thread persisted under an identifier. *)
Definition first_row (rows : list Opportunity) (tid : Z) : option Opportunity :=
  find (fun o => threadId o =? tid) rows.

Definition last_write (ws : list write) (tid : Z) : option write :=
  find (fun x => fst x =? tid) (rev ws).

Definition last_thread (ts : list Thread) (tid : Z) : option Thread :=
  find (fun t => thread_id t =? tid) (rev ts).

(** Weights of the examples: 10 per matched program, 5 for commercial
    intent, 20 for a SERP match, upvotes capped at 100 and counted once,
    COMMENT above 12. *)
Definition sample_weights : Weights :=
  {| programWeight := 10; intentBonus := 5; serpBonus := 20;
     engagementWeight := 1; normalize := fun u => inject_Z (Z.min u 100);
     commentThreshold := 12 |}.

(** The opportunity listing asked for a score range only. *)
Definition score_range_query (scoreMin scoreMax : string)
  (sortBy sortDirection : option string) : OpportunitiesQuery :=
  {| q_threadId := None; q_intent := None; q_score := None;
     q_scoreMin := Some scoreMin; q_scoreMax := Some scoreMax;
     q_serpMatch := None; q_action := None; q_limit := None;
     q_offset := None; q_sortBy := sortBy; q_sortDirection := sortDirection |}.


(** The page of five after the first ten. *)
Definition third_page_of_five : OpportunitiesQuery :=
  {| q_threadId := None; q_intent := None; q_score := None; q_scoreMin := None;
     q_scoreMax := None; q_serpMatch := None; q_action := None;
     q_limit := Some "5"; q_offset := Some "10";
     q_sortBy := Some "score"; q_sortDirection := Some "desc" |}.


Definition sample_store : Storage.Store :=
  {| Storage.threads := map thread_numbered [3; 1; 2];
     Storage.programs :=
       [{| program_id := 1; name := "Jasper"; link := "https://jasper.example";
           promoCode := None; keywords := ["jasper"] |}];
     Storage.serpResults := [];
     Storage.opportunities :=
       map (fun n => opportunity_scored n (10 * n))
         [4; 19; 9; 5; 22; 8; 1; 12; 17; 6; 3; 23; 7; 11; 14; 2; 10; 21; 13; 16;
          20; 15; 18];
     Storage.nextOpportunityId := 24 |}.

(** Eleven opportunities, all scored 60. *)
Definition eleven_scored_60 : Storage.Store :=
  {| Storage.threads := [];
     Storage.programs := [];
     Storage.serpResults := [];
     Storage.opportunities :=
       map (fun n => opportunity_scored n 60) [1; 2; 3; 4; 5; 6; 7; 8; 9; 10; 11];
     Storage.nextOpportunityId := 12 |}.

(* ================================================================== *)
(** * The other routes of [registerRoutes] *)
(* ================================================================== *)

(** ** More zod schemas *)

(** [z.number().optional()]: left out, or a number; null is refused. *)
Definition z_optional_number (v : option json) : outcome (option Q) :=
  match v with
  | None => Returns None
  | Some (JNum q) => Returns (Some q)
  | Some _ => Throws ZodError
  end.

(** [z.string().optional()] *)
Definition z_optional_string (v : option json) : outcome (option string) :=
  match v with
  | None => Returns None
  | Some (JStr s) => Returns (Some s)
  | Some _ => Throws ZodError
  end.

(** [z.boolean().optional()] *)
Definition z_optional_boolean (v : option json) : outcome (option bool) :=
  match v with
  | None => Returns None
  | Some (JBool b) => Returns (Some b)
  | Some _ => Throws ZodError
  end.

Fixpoint z_numbers (items : list json) : outcome (list Q) :=
  match items with
  | [] => Returns []
  | JNum q :: rest =>
      match z_numbers rest with
      | Returns l => Returns (q :: l)
      | Throws e => Throws e
      end
  | _ :: _ => Throws ZodError
  end.

(** [z.array(z.number())] *)
Definition z_number_array (v : option json) : outcome (list Q) :=
  match v with
  | Some (JArr items) => z_numbers items
  | _ => Throws ZodError
  end.

(** [z.array(z.number()).optional()] *)
Definition z_optional_number_array (v : option json) : outcome (option (list Q)) :=
  match v with
  | None => Returns None
  | Some (JArr items) =>
      match z_numbers items with
      | Returns l => Returns (Some l)
      | Throws e => Throws e
      end
  | Some _ => Throws ZodError
  end.

(** ** GET /api/threads/:id *)

Section ThreadById.

(** [storage.getThreadById] *)
Variable getThreadById : number -> outcome (option Thread).


End ThreadById.

(** ** POST /api/opportunities *)

(** The body accepted by POST /api/opportunities. *)
Record InsertOpportunity : Type := {
  new_opportunity_threadId : Q;
  new_score : Q;
  new_intent : option string;
  new_matchedProgramIds : list Q;
  new_serpMatch : bool;
  new_action : string
}.

Definition opportunity_schema (body : json) : outcome InsertOpportunity :=
  z_object body (fun props =>
    match z_number (prop "threadId" props),
          z_number (prop "score" props),
          z_optional_string (prop "intent" props),
          z_number_array (prop "matchedProgramIds" props),
          z_boolean (prop "serpMatch" props),
          z_string (prop "action" props) with
    | Returns t, Returns s, Returns i, Returns m, Returns b, Returns a =>
        Returns {| new_opportunity_threadId := t; new_score := s;
                   new_intent := i; new_matchedProgramIds := m;
                   new_serpMatch := b; new_action := a |}
    | _, _, _, _, _, _ => Throws ZodError
    end).

Section CreateOpportunity.

(** [storage.createOpportunity] *)
Variable createOpportunity : InsertOpportunity -> outcome Opportunity.

Definition create_opportunity_catch (e : exn) : reply Opportunity :=
  match e with
  | ZodError => Message 400 "Invalid request data"
  | Failure => Message 500 "Failed to create opportunity"
  end.

(** The handler, with the requests it made to the storage. *)
Definition create_opportunity (body : json)
  : list InsertOpportunity * reply Opportunity :=
  match opportunity_schema body with
  | Throws e => ([], create_opportunity_catch e)
  | Returns opportunityData =>
      match createOpportunity opportunityData with
      | Returns opportunity => ([opportunityData], Json 201 opportunity)
      | Throws e => ([opportunityData], create_opportunity_catch e)
      end
  end.

End CreateOpportunity.

(** ** PATCH /api/opportunities/:id *)

(** The fields an opportunity update may carry. *)
Record OpportunityPatch : Type := {
  patch_score : option Q;
  patch_intent : option string;
  patch_matchedProgramIds : option (list Q);
  patch_serpMatch : option bool;
  patch_action : option string
}.

Definition opportunity_patch_schema (body : json) : outcome OpportunityPatch :=
  z_object body (fun props =>
    match z_optional_number (prop "score" props),
          z_optional_string (prop "intent" props),
          z_optional_number_array (prop "matchedProgramIds" props),
          z_optional_boolean (prop "serpMatch" props),
          z_optional_string (prop "action" props) with
    | Returns s, Returns i, Returns m, Returns b, Returns a =>
        Returns {| patch_score := s; patch_intent := i;
                   patch_matchedProgramIds := m; patch_serpMatch := b;
                   patch_action := a |}
    | _, _, _, _, _ => Throws ZodError
    end).

Section UpdateOpportunity.

(** [storage.updateOpportunity]; [None] is the not-found answer. *)
Variable updateOpportunity : number -> OpportunityPatch -> outcome (option Opportunity).

Definition update_opportunity_catch (e : exn) : reply Opportunity :=
  match e with
  | ZodError => Message 400 "Invalid request data"
  | Failure => Message 500 "Failed to update opportunity"
  end.

(** The handler, with the requests it made to the storage. *)
Definition update_opportunity (idParam : string) (body : json)
  : list (number * OpportunityPatch) * reply Opportunity :=
  let id := parseInt idParam in
  match opportunity_patch_schema body with
  | Throws e => ([], update_opportunity_catch e)
  | Returns opportunityData =>
      match updateOpportunity id opportunityData with
      | Throws e => ([(id, opportunityData)], update_opportunity_catch e)
      | Returns None => ([(id, opportunityData)], Message 404 "Opportunity not found")
      | Returns (Some opportunity) => ([(id, opportunityData)], Json 200 opportunity)
      end
  end.

End UpdateOpportunity.

(** ** PATCH /api/serp-results/:id *)

(** The fields a SERP result update may carry. *)
Record SerpResultPatch : Type := {
  patch_query : option string;
  patch_position : option Q;
  patch_isRanked : option bool
}.

Definition serp_result_patch_schema (body : json) : outcome SerpResultPatch :=
  z_object body (fun props =>
    match z_optional_string (prop "query" props),
          z_optional_number (prop "position" props),
          z_optional_boolean (prop "isRanked" props) with
    | Returns q, Returns p, Returns r =>
        Returns {| patch_query := q; patch_position := p; patch_isRanked := r |}
    | _, _, _ => Throws ZodError
    end).

Section UpdateSerpResult.

(** [storage.updateSerpResult]; [None] is the not-found answer. *)
Variable updateSerpResult : number -> SerpResultPatch -> outcome (option SerpResult).

Definition update_serp_result_catch (e : exn) : reply SerpResult :=
  match e with
  | ZodError => Message 400 "Invalid request data"
  | Failure => Message 500 "Failed to update SERP result"
  end.

(** The handler, with the requests it made to the storage. *)
Definition update_serp_result (idParam : string) (body : json)
  : list (number * SerpResultPatch) * reply SerpResult :=
  let id := parseInt idParam in
  match serp_result_patch_schema body with
  | Throws e => ([], update_serp_result_catch e)
  | Returns serpResultData =>
      match updateSerpResult id serpResultData with
      | Throws e => ([(id, serpResultData)], update_serp_result_catch e)
      | Returns None => ([(id, serpResultData)], Message 404 "SERP result not found")
      | Returns (Some serpResult) => ([(id, serpResultData)], Json 200 serpResult)
      end
  end.

End UpdateSerpResult.

(** ** POST /api/test-dotnet-crawler *)

(** [x || ...] on a decoded JSON value: null, false, 0 and the empty
    string are falsy; every array and every object is truthy. *)
Definition js_truthy (v : json) : bool :=
  match v with
  | JNull => false
  | JBool b => b
  | JNum q => negb (Qeq_bool q 0)
  | JStr s => negb (String.eqb s "")
  | JArr _ | JObj _ => true
  end.

(** [body.subreddits]: reading a property of [undefined] or of null
    throws; a value that is not an object has no such property. *)
Definition subreddits_property (body : option json) : outcome (option json) :=
  match body with
  | None | Some JNull => Throws Failure
  | Some (JObj props) => Returns (prop "subreddits" props)
  | Some _ => Returns None
  end.

(** The answer of the test route: [{ message, result }], or
    [{ error, details }] with status 500. *)
Inductive test_reply (R : Type) : Type :=
| TestSuccessful (result : R)
| TestFailed.
Arguments TestSuccessful {R} result.
Arguments TestFailed {R}.

Section TestDotnetCrawler.

Variable CrawlResult : Type.
(** [DotNetCrawlerService.runCrawler], here given whatever the body
    holds. *)
Variable runCrawlerWith : json -> outcome CrawlResult.

(** [req.body.subreddits || ['programming', 'javascript']] *)
Definition test_subreddits (given : option json) : json :=
  match given with
  | Some v => if js_truthy v then v else JArr [JStr "programming"; JStr "javascript"]
  | None => JArr [JStr "programming"; JStr "javascript"]
  end.

(** The handler, with what it handed to the crawler. *)
Definition test_dotnet_crawler (body : option json)
  : list json * test_reply CrawlResult :=
  match subreddits_property body with
  | Throws _ => ([], TestFailed)
  | Returns given =>
      let subreddits := test_subreddits given in
      match runCrawlerWith subreddits with
      | Returns result => ([subreddits], TestSuccessful result)
      | Throws _ => ([subreddits], TestFailed)
      end
  end.

End TestDotnetCrawler.

(** ** GET /api/subreddit-categories/:category *)

Section SubredditsByCategory.

Variable Subreddit : Type.
(** [getSubredditsByCategory] of [server/subredditList.ts]; [None] is
    [undefined]. *)
Variable getSubredditsByCategory : string -> outcome (option (list Subreddit)).

Definition subreddits_of_category (category : string) : reply (list Subreddit) :=
  match getSubredditsByCategory category with
  | Throws _ => Message 500 "Failed to fetch subreddits"
  | Returns None | Returns (Some []) => Message 404 "Category not found"
  | Returns (Some subreddits) => Json 200 subreddits
  end.

End SubredditsByCategory.

(** ** Vocabulary of the statements about these routes *)

(** The JSON text of an opportunity to create, as a client sends it. *)
Definition opportunity_body (d : InsertOpportunity) : json :=
  JObj ([("threadId", JNum (new_opportunity_threadId d));
         ("score", JNum (new_score d))]
        ++ match new_intent d with
           | Some i => [("intent", JStr i)]
           | None => []
           end
        ++ [("matchedProgramIds", JArr (map JNum (new_matchedProgramIds d)));
            ("serpMatch", JBool (new_serpMatch d));
            ("action", JStr (new_action d))])%list.

(** The keys of an opportunity update. *)
Definition opportunity_patch_keys : list string :=
  ["score"; "intent"; "matchedProgramIds"; "serpMatch"; "action"].

(** A decimal digit. *)
Definition is_digit (c : ascii) : bool :=
  let n := nat_of_ascii c in ((48 <=? n) && (n <=? 57))%nat.

(** A text made of decimal digits. *)
Fixpoint digits_only (s : string) : bool :=
  match s with
  | EmptyString => true
  | String c rest => is_digit c && digits_only rest
  end.

(** What follows the decimal text of [n] ends the number: nothing, or a
    character that is not a decimal digit, and not [x] or [X] after the
    text of zero. *)
Definition ends_number (n : nat) (rest : string) : bool :=
  match rest with
  | EmptyString => true
  | String c _ =>
      negb (is_digit c)
      && negb ((n =? 0)%nat && (Ascii.eqb c "x" || Ascii.eqb c "X"))
  end.


(** A storage for updates of the examples: it knows no identifier. *)
Definition update_nothing {P R : Type} (_ : number) (_ : P) : outcome (option R) :=
  Returns None.

(** A crawler of the examples that reports how many entries it got. *)
Definition counting_any (v : json) : outcome nat :=
  match v with
  | JArr items => Returns (List.length items)
  | _ => Throws Failure
  end.

(* ================================================================== *)
(** * The JavaScript primitives on examples *)
(* ================================================================== *)

Example parseInt_examples :
  parseInt "10" = int 10
  /\ parseInt "  -42px" = int (-42)
  /\ parseInt "0x1f" = int 31
  /\ parseInt "" = NaN
  /\ parseInt "abc" = NaN
  /\ parse_if_truthy (with_default 10 None) = Some (int 10)
  /\ parse_if_truthy (with_default 0 None) = None
  /\ parse_if_truthy (with_default 0 (Some "0")) = Some (int 0).
Proof. repeat split. Qed.

(** Beyond 2^53 [parseInt] gives the nearest double. *)
Example parseInt_rounds_to_double :
  parseInt "9007199254740992" = int 9007199254740992
  /\ parseInt "9007199254740993" = int 9007199254740992
  /\ parseInt "9007199254740995" = int 9007199254740996
  /\ parseInt "-9007199254740993" = int (-9007199254740992)
  /\ parseInt "18014398509481986" = int 18014398509481984.
Proof. repeat split. Qed.

Example replaceAll_examples :
  replaceAll "aa" "b" "aaaaa" = "bba"
  /\ replaceAll "" "-" "abc" = "-a-b-c-"
  /\ replaceAll "{{a}}" "<$&>" "1{{a}}2{{a}}3" = "1<{{a}}>2<{{a}}>3"
  /\ replaceAll "{{a}}" "[$`|$']" "1{{a}}2" = "1[1|2]2"
  /\ replaceAll "{{price}}" "$49" "for {{price}}, {{price}}" = "for $49, $49".
Proof. repeat split. Qed.

(* ================================================================== *)
(** * Properties of POST /api/run-crawler *)
(* ================================================================== *)

Lemma z_strings_map_JStr (l : list string) :
  z_strings (map JStr l) = Returns l.
Proof.
  induction l as [|s l IH]; simpl; [reflexivity|].
  now rewrite IH.
Qed.

Section RunCrawlerFacts.

Variable CrawlHistory : Type.
Variable getAllSubreddits : list string.
Variable runCrawler : list string -> outcome CrawlHistory.
Variable history_id_text : CrawlHistory -> string.
Variable thread_count_text : CrawlHistory -> string.

(** Once the body is valid the crawler runs exactly once, over the
    list chosen by [subredditList], and its result decides the answer. *)
Lemma run_crawler_valid (body : json) (subs : option (list string)) :
  run_crawler_schema body = Returns subs ->
  crawls (fst (run_crawler CrawlHistory getAllSubreddits runCrawler
                  history_id_text thread_count_text body))
  = [subredditList getAllSubreddits subs]
  /\ snd (run_crawler CrawlHistory getAllSubreddits runCrawler
            history_id_text thread_count_text body) =
     match runCrawler (subredditList getAllSubreddits subs) with
     | Returns h => Json 200 h
     | Throws e => run_crawler_catch CrawlHistory e
     end.
Proof.
  intros H. unfold run_crawler. rewrite H.
  destruct (runCrawler _); simpl; split; reflexivity.
Qed.

(** A body that does not fit the schema is answered with 400 and no
    crawl is started. *)
Lemma run_crawler_invalid (body : json) :
  run_crawler_schema body = Throws ZodError ->
  run_crawler CrawlHistory getAllSubreddits runCrawler
    history_id_text thread_count_text body
  = ([], Message 400 "Invalid request data").
Proof.
  intros H. unfold run_crawler. now rewrite H.
Qed.

Lemma run_crawler_schema_given (props : list (string * json))
  (given : option (list string)) :
  prop "subreddits" props = option_map (fun l => JArr (map JStr l)) given ->
  run_crawler_schema (JObj props) = Returns given.
Proof.
  intros H. unfold run_crawler_schema, z_object, z_optional_string_array.
  rewrite H. destruct given as [l|]; simpl; [|reflexivity].
  now rewrite z_strings_map_JStr.
Qed.

End RunCrawlerFacts.

(** C2 (as amended): an empty source list is not a validation error. A
    body whose [subreddits] is the empty list passes validation, the crawl
    runs once over the full standard subreddit list, and the answer is
    the crawler's: 200 with the crawl history when it returns. *)
Theorem run_crawler_accepts_empty_list :
  forall (CrawlHistory : Type) (getAllSubreddits : list string)
         (runCrawler : list string -> outcome CrawlHistory)
         (id_text count_text : CrawlHistory -> string)
         (props : list (string * json)),
    prop "subreddits" props = Some (JArr []) ->
    run_crawler_schema (JObj props) = Returns (Some [])
    /\ crawls (fst (run_crawler CrawlHistory getAllSubreddits runCrawler
                      id_text count_text (JObj props)))
       = [getAllSubreddits]
    /\ snd (run_crawler CrawlHistory getAllSubreddits runCrawler
              id_text count_text (JObj props))
       = match runCrawler getAllSubreddits with
         | Returns h => Json 200 h
         | Throws e => run_crawler_catch CrawlHistory e
         end.
Proof.
  intros CrawlHistory allSubs runCrawler idt cnt props H.
  assert (S : run_crawler_schema (JObj props) = Returns (Some [])).
  { apply (run_crawler_schema_given props (Some [])). exact H. }
  split; [exact S|].
  exact (run_crawler_valid CrawlHistory allSubs runCrawler idt cnt _ _ S).
Qed.

Lemma run_crawler_accepts_empty_list_witness :
  snd (run_crawler nat ["SEO"; "marketing"] counting_crawler
         (fun _ => "1") (fun _ => "0") (JObj [("subreddits", JArr [])]))
  = Json 200 2%nat.
Proof.
  exact (proj2 (proj2 (run_crawler_accepts_empty_list nat ["SEO"; "marketing"]
           counting_crawler (fun _ => "1") (fun _ => "0")
           [("subreddits", JArr [])] eq_refl))).
Defined.

(** C2 (as stated) fails: the request with the empty source list is
    executed, over the standard list, and answered with 200. *)
Lemma run_crawler_empty_list_not_rejected :
  run_crawler nat ["SEO"; "marketing"] counting_crawler
    (fun _ => "1") (fun _ => "0") (JObj [("subreddits", JArr [])])
  = ([Log "Starting crawler for subreddits: SEO, marketing";
      RunCrawler ["SEO"; "marketing"];
      Log "Crawler completed with ID: 1, threads: 0"],
     Json 200 2%nat).
Proof. reflexivity. Qed.

(** C9: with [subreddits] left out or equal to the empty list the crawl
    runs over the full standard subreddit list; a non-empty list is used
    as given. The crawler is run exactly once. *)
Theorem run_crawler_subreddit_fallback :
  forall (CrawlHistory : Type) (getAllSubreddits : list string)
         (runCrawler : list string -> outcome CrawlHistory)
         (id_text count_text : CrawlHistory -> string)
         (props : list (string * json)) (given : option (list string)),
    prop "subreddits" props = option_map (fun l => JArr (map JStr l)) given ->
    crawls (fst (run_crawler CrawlHistory getAllSubreddits runCrawler
                   id_text count_text (JObj props)))
    = [match given with
       | None | Some [] => getAllSubreddits
       | Some (s :: rest) => s :: rest
       end].
Proof.
  intros CrawlHistory allSubs runCrawler idt cnt props given H.
  apply run_crawler_schema_given in H.
  destruct (run_crawler_valid CrawlHistory allSubs runCrawler idt cnt _ _ H)
    as [C _].
  rewrite C. unfold subredditList.
  destruct given as [[|s rest]|]; reflexivity.
Qed.

Lemma run_crawler_subreddit_fallback_witness :
  crawls (fst (run_crawler nat ["SEO"; "marketing"] counting_crawler
                 (fun _ => "1") (fun _ => "0") (JObj [])))
  = [["SEO"; "marketing"]]
  /\ crawls (fst (run_crawler nat ["SEO"; "marketing"] counting_crawler
                    (fun _ => "1") (fun _ => "0")
                    (JObj [("subreddits", JArr [JStr "blogging"])])))
     = [["blogging"]].
Proof.
  split.
  - exact (run_crawler_subreddit_fallback nat ["SEO"; "marketing"]
             counting_crawler (fun _ => "1") (fun _ => "0") [] None eq_refl).
  - exact (run_crawler_subreddit_fallback nat ["SEO"; "marketing"]
             counting_crawler (fun _ => "1") (fun _ => "0")
             [("subreddits", JArr [JStr "blogging"])] (Some ["blogging"]) eq_refl).
Defined.

(* ================================================================== *)
(** * Properties of POST /api/serp-results *)
(* ================================================================== *)

Lemma z_number_inv (v : option json) (q : Q) :
  z_number v = Returns q -> v = Some (JNum q).
Proof. destruct v as [[]|]; simpl; congruence. Qed.

Lemma z_string_inv (v : option json) (s : string) :
  z_string v = Returns s -> v = Some (JStr s).
Proof. destruct v as [[]|]; simpl; congruence. Qed.

Lemma z_boolean_inv (v : option json) (b : bool) :
  z_boolean v = Returns b -> v = Some (JBool b).
Proof. destruct v as [[]|]; simpl; congruence. Qed.

Lemma serp_result_schema_throws (body : json) (e : exn) :
  serp_result_schema body = Throws e -> e = ZodError.
Proof.
  unfold serp_result_schema, z_object. destruct body; try congruence.
  destruct (z_number (prop "threadId" props)), (z_string (prop "query" props)),
    (z_number (prop "position" props)), (z_boolean (prop "isRanked" props));
    congruence.
Qed.

Lemma serp_result_schema_returns (body : json) (d : InsertSerpResult) :
  serp_result_schema body = Returns d ->
  exists props, body = JObj props
    /\ prop "threadId" props = Some (JNum (new_threadId d))
    /\ prop "query" props = Some (JStr (new_query d))
    /\ prop "position" props = Some (JNum (new_position d))
    /\ prop "isRanked" props = Some (JBool (new_isRanked d)).
Proof.
  unfold serp_result_schema, z_object. destruct body; try congruence.
  destruct (z_number (prop "threadId" props)) as [t|] eqn:Ht; try congruence.
  destruct (z_string (prop "query" props)) as [q|] eqn:Hq; try congruence.
  destruct (z_number (prop "position" props)) as [p|] eqn:Hp; try congruence.
  destruct (z_boolean (prop "isRanked" props)) as [r|] eqn:Hr; try congruence.
  intros H. injection H as <-. simpl. exists props.
  apply z_number_inv in Ht, Hp. apply z_string_inv in Hq.
  apply z_boolean_inv in Hr. auto.
Qed.

Lemma serp_result_schema_accepts (props : list (string * json))
  (d : InsertSerpResult) :
  prop "threadId" props = Some (JNum (new_threadId d)) ->
  prop "query" props = Some (JStr (new_query d)) ->
  prop "position" props = Some (JNum (new_position d)) ->
  prop "isRanked" props = Some (JBool (new_isRanked d)) ->
  serp_result_schema (JObj props) = Returns d.
Proof.
  intros Ht Hq Hp Hr. unfold serp_result_schema, z_object.
  rewrite Ht, Hq, Hp, Hr. now destruct d.
Qed.

(** C3 (as amended): the create route stores a SERP check for a body
    that carries a number as position (with a number as thread, a text as
    query and a boolean as ranked flag), whatever the number is, and hands
    exactly these four values to the storage; every other body, and so a
    body whose position is null or left out, is answered with 400 and
    nothing is stored. *)
Theorem create_serp_result_needs_position :
  forall (createSerpResult : InsertSerpResult -> outcome SerpResult) (body : json),
    (forall props d,
        body = JObj props ->
        prop "threadId" props = Some (JNum (new_threadId d)) ->
        prop "query" props = Some (JStr (new_query d)) ->
        prop "position" props = Some (JNum (new_position d)) ->
        prop "isRanked" props = Some (JBool (new_isRanked d)) ->
        create_serp_result createSerpResult body
        = ([d], match createSerpResult d with
                | Returns r => Json 201 r
                | Throws e => create_serp_result_catch e
                end))
    /\ ((exists props d,
            body = JObj props
            /\ prop "threadId" props = Some (JNum (new_threadId d))
            /\ prop "query" props = Some (JStr (new_query d))
            /\ prop "position" props = Some (JNum (new_position d))
            /\ prop "isRanked" props = Some (JBool (new_isRanked d)))
         \/ create_serp_result createSerpResult body
            = ([], Message 400 "Invalid request data"))
    /\ (forall props,
          body = JObj props ->
          prop "position" props = None \/ prop "position" props = Some JNull ->
          create_serp_result createSerpResult body
          = ([], Message 400 "Invalid request data")).
Proof.
  intros create body.
  assert (D : (exists d, serp_result_schema body = Returns d)
              \/ serp_result_schema body = Throws ZodError).
  { destruct (serp_result_schema body) as [d|e] eqn:E; [left; eauto|].
    right. now rewrite (serp_result_schema_throws _ _ E). }
  split; [|split].
  - intros props d -> Ht Hq Hp Hr. unfold create_serp_result.
    rewrite (serp_result_schema_accepts props d Ht Hq Hp Hr).
    now destruct (create d).
  - destruct D as [[d E]|E].
    + left. destruct (serp_result_schema_returns _ _ E) as (props & Hb & H).
      exists props, d. split; assumption.
    + right. unfold create_serp_result. now rewrite E.
  - intros props -> Hpos. destruct D as [[d E]|E].
    + destruct (serp_result_schema_returns _ _ E) as (props' & Hb & _ & _ & H3 & _).
      injection Hb as <-. destruct Hpos; congruence.
    + unfold create_serp_result. now rewrite E.
Qed.

Lemma create_serp_result_needs_position_witness :
  create_serp_result store_as_given
    (JObj [("threadId", JNum 7%Q); ("query", JStr "site:reddit.com jasper");
           ("isRanked", JBool false)])
  = ([], Message 400 "Invalid request data").
Proof.
  refine (proj2 (proj2 (create_serp_result_needs_position store_as_given _))
            _ eq_refl _).
  left. reflexivity.
Defined.

(** C3 (as stated) fails on the route: a check with a null position is
    refused and nothing is stored, and a check with position 0 is
    stored. *)
Lemma create_serp_result_null_position_refused :
  create_serp_result store_as_given
    (JObj [("threadId", JNum 7%Q); ("query", JStr "site:reddit.com jasper");
           ("position", JNull); ("isRanked", JBool false)])
  = ([], Message 400 "Invalid request data")
  /\ exists d r,
       create_serp_result store_as_given
         (JObj [("threadId", JNum 7%Q); ("query", JStr "site:reddit.com jasper");
                ("position", JNum 0%Q); ("isRanked", JBool false)])
       = ([d], Json 201 r)
       /\ new_position d = 0%Q /\ serp_position r = Some 0%Q.
Proof.
  split; [reflexivity|].
  eexists; eexists. split; [reflexivity|]. split; reflexivity.
Qed.

(* ================================================================== *)
(** * Properties of the listing routes that hold for every storage *)
(* ================================================================== *)





(* ================================================================== *)
(** * Properties of the scheduler *)
(* ================================================================== *)

Module SchedulerFacts.
Import Scheduler.

Lemma boot_consistent : consistent boot.
Proof. split; simpl; [reflexivity|]. split; discriminate. Qed.

Lemma step_consistent (sys : System) (e : Event) :
  consistent sys -> consistent (step sys e).
Proof.
  destruct sys as [[m armed flying] n]. unfold consistent. simpl.
  intros [Hn Hm].
  destruct e; simpl.
  - (* start *)
    destruct m; simpl; auto.
    split; [assumption|]. split; [discriminate|].
    intros Hf. apply Hm in Hf. discriminate.
  - (* stop *)
    destruct m; simpl; auto.
    split; [assumption|]. split; [discriminate|].
    intros Hf. apply Hm in Hf. discriminate.
  - (* runNow *)
    unfold runNow. simpl. destruct flying; simpl; auto.
    subst n. split; [reflexivity|]. split; reflexivity.
  - (* timer *)
    unfold timerFire. simpl. destruct armed; simpl; auto.
    destruct flying; simpl; auto.
    subst n. split; [reflexivity|]. split; reflexivity.
  - auto.
  - (* pass finished *)
    destruct n as [|n]; simpl; auto.
    destruct flying; [|discriminate].
    injection Hn as ->. split; [reflexivity|].
    destruct armed; split; discriminate.
Qed.

Lemma run_consistent (events : list Event) (sys : System) :
  consistent sys -> consistent (run sys events).
Proof.
  revert sys. induction events as [|e events IH]; intros sys H; simpl.
  - exact H.
  - apply IH, step_consistent, H.
Qed.

Lemma start_after_start (s : State) : fst (start (snd (start s))) = false.
Proof. destruct s as [[] armed flying]; reflexivity. Qed.

End SchedulerFacts.

(** C1: whatever start, stop, runNow, timer and completion events
    arrive, in whatever order, at most one Orchestrator execution is
    active after each of them, and the scheduler is RUNNING exactly while
    one is. *)
Theorem scheduler_single_flight :
  forall events : list Scheduler.Event,
    (Scheduler.activePasses (Scheduler.run Scheduler.boot events) <= 1)%nat
    /\ (Scheduler.status (Scheduler.scheduler (Scheduler.run Scheduler.boot events))
          = Scheduler.RUNNING
        <-> Scheduler.activePasses (Scheduler.run Scheduler.boot events) = 1%nat).
Proof.
  intros events.
  destruct (SchedulerFacts.run_consistent events _ SchedulerFacts.boot_consistent)
    as [Hn Hm].
  unfold Scheduler.status. rewrite Hn.
  destruct (Scheduler.inFlight _); split; try lia.
  - split; [reflexivity|]. intros _. now apply Hm.
  - split; [|discriminate]. intros H. apply Hm in H. discriminate.
Qed.

(** An answer of a route on one side, what the scheduler did on the
    other: both hold, or neither does. *)
Ltac both_hold := split; intros _; reflexivity.
Ltac neither_holds := split; intros H; discriminate H.

Section SchedulerRouteFacts.

Variable Sched : Type.
Variable call : Sched -> outcome bool * Sched.

Lemma scheduler_start_answers (s : Sched) :
  snd (scheduler_start Sched call s) = snd (call s)
  /\ (fst (call s) = Returns true
      <-> fst (scheduler_start Sched call s)
          = Message 200 "Crawler job scheduled successfully")
  /\ (fst (call s) = Returns false
      <-> fst (scheduler_start Sched call s)
          = Message 400 "Crawler job is already running")
  /\ ((exists e, fst (call s) = Throws e)
      <-> fst (scheduler_start Sched call s)
          = Message 500 "Failed to start crawler job").
Proof.
  unfold scheduler_start. destruct (call s) as [[[|]|e] s1]; simpl.
  - split; [reflexivity|]. split; [both_hold|]. split; [neither_holds|].
    split; [intros [x H]; discriminate H | discriminate].
  - split; [reflexivity|]. split; [neither_holds|]. split; [both_hold|].
    split; [intros [x H]; discriminate H | discriminate].
  - split; [reflexivity|]. split; [neither_holds|]. split; [neither_holds|].
    split; [reflexivity | intros _; now exists e].
Qed.

Lemma scheduler_stop_answers (s : Sched) :
  snd (scheduler_stop Sched call s) = snd (call s)
  /\ (fst (call s) = Returns true
      <-> fst (scheduler_stop Sched call s)
          = Message 200 "Crawler job stopped successfully")
  /\ (fst (call s) = Returns false
      <-> fst (scheduler_stop Sched call s)
          = Message 400 "No crawler job is running")
  /\ ((exists e, fst (call s) = Throws e)
      <-> fst (scheduler_stop Sched call s)
          = Message 500 "Failed to stop crawler job").
Proof.
  unfold scheduler_stop. destruct (call s) as [[[|]|e] s1]; simpl.
  - split; [reflexivity|]. split; [both_hold|]. split; [neither_holds|].
    split; [intros [x H]; discriminate H | discriminate].
  - split; [reflexivity|]. split; [neither_holds|]. split; [both_hold|].
    split; [intros [x H]; discriminate H | discriminate].
  - split; [reflexivity|]. split; [neither_holds|]. split; [neither_holds|].
    split; [reflexivity | intros _; now exists e].
Qed.

End SchedulerRouteFacts.

(** C4 (as amended): already-in-state conditions come back as the
    boolean false. [start()] returns true exactly when the scheduler is
    STOPPED, so it returns false when the scheduler is already SCHEDULED
    or RUNNING and the second of two consecutive [start()] calls always
    returns false; [stop()] returns true exactly when the scheduler is
    SCHEDULED, so it returns false when the scheduler is STOPPED. The two
    calls of the routes return that boolean. Whatever the scheduler, the
    start route and the stop route answer 200 exactly when the call
    returns true, 400 exactly when it returns false and 500 exactly when
    it throws, and they leave the scheduler as the call left it; over
    this scheduler they answer 200 or 400. *)
Theorem scheduler_reports_already_in_state :
  (forall s : Scheduler.State,
      (fst (Scheduler.start s) = true <-> Scheduler.mode s = Scheduler.STOPPED)
      /\ (fst (Scheduler.stop s) = true <-> Scheduler.mode s = Scheduler.SCHEDULED)
      /\ fst (Scheduler.start (snd (Scheduler.start s))) = false
      /\ Scheduler.startCrawlerJob s
         = (Returns (fst (Scheduler.start s)), snd (Scheduler.start s))
      /\ Scheduler.stopCrawlerJob s
         = (Returns (fst (Scheduler.stop s)), snd (Scheduler.stop s))
      /\ scheduler_start Scheduler.State Scheduler.startCrawlerJob s
         = (if fst (Scheduler.start s)
            then Message 200 "Crawler job scheduled successfully"
            else Message 400 "Crawler job is already running",
            snd (Scheduler.start s))
      /\ scheduler_stop Scheduler.State Scheduler.stopCrawlerJob s
         = (if fst (Scheduler.stop s)
            then Message 200 "Crawler job stopped successfully"
            else Message 400 "No crawler job is running",
            snd (Scheduler.stop s)))
  /\ (forall (Sched : Type)
             (startCrawlerJob stopCrawlerJob : Sched -> outcome bool * Sched)
             (s : Sched),
        snd (scheduler_start Sched startCrawlerJob s) = snd (startCrawlerJob s)
        /\ (fst (startCrawlerJob s) = Returns true
            <-> fst (scheduler_start Sched startCrawlerJob s)
                = Message 200 "Crawler job scheduled successfully")
        /\ (fst (startCrawlerJob s) = Returns false
            <-> fst (scheduler_start Sched startCrawlerJob s)
                = Message 400 "Crawler job is already running")
        /\ ((exists e, fst (startCrawlerJob s) = Throws e)
            <-> fst (scheduler_start Sched startCrawlerJob s)
                = Message 500 "Failed to start crawler job")
        /\ snd (scheduler_stop Sched stopCrawlerJob s) = snd (stopCrawlerJob s)
        /\ (fst (stopCrawlerJob s) = Returns true
            <-> fst (scheduler_stop Sched stopCrawlerJob s)
                = Message 200 "Crawler job stopped successfully")
        /\ (fst (stopCrawlerJob s) = Returns false
            <-> fst (scheduler_stop Sched stopCrawlerJob s)
                = Message 400 "No crawler job is running")
        /\ ((exists e, fst (stopCrawlerJob s) = Throws e)
            <-> fst (scheduler_stop Sched stopCrawlerJob s)
                = Message 500 "Failed to stop crawler job")).
Proof.
  split.
  - intros [m armed flying].
    split; [destruct m; simpl; split; (reflexivity || discriminate)|].
    split; [destruct m; simpl; split; (reflexivity || discriminate)|].
    split; [apply SchedulerFacts.start_after_start|].
    destruct m; repeat split.
  - intros Sched startJob stopJob s.
    destruct (scheduler_start_answers Sched startJob s) as (A1 & A2 & A3 & A4).
    destruct (scheduler_stop_answers Sched stopJob s) as (B1 & B2 & B3 & B4).
    repeat split; (apply A1 || apply A2 || apply A3 || apply A4
                   || apply B1 || apply B2 || apply B3 || apply B4).
Qed.

Lemma scheduler_reports_already_in_state_witness :
  fst (Scheduler.start Scheduler.initial) = true
  /\ fst (Scheduler.start (snd (Scheduler.start Scheduler.initial))) = false
  /\ fst (Scheduler.stop Scheduler.initial) = false
  /\ fst (scheduler_stop Scheduler.State Scheduler.stopCrawlerJob
            (snd (Scheduler.start Scheduler.initial)))
     = Message 200 "Crawler job stopped successfully".
Proof.
  destruct scheduler_reports_already_in_state as [Hmodel Hroutes].
  destruct (Hmodel Scheduler.initial) as (Hstart & Hstop & Hsecond & _).
  destruct (Hroutes Scheduler.State Scheduler.startCrawlerJob
              Scheduler.stopCrawlerJob (snd (Scheduler.start Scheduler.initial)))
    as (_ & _ & _ & _ & _ & Hstopped & _).
  split; [apply Hstart; reflexivity|].
  split; [exact Hsecond|].
  split; [|apply Hstopped; reflexivity].
  apply Bool.not_true_is_false. intros E. apply Hstop in E. discriminate E.
Defined.

(** C4 (as stated) fails for the state the server is in once
    [registerRoutes] has run: the scheduler is SCHEDULED, and two
    [start()] calls in a row return false and false. Whatever the
    scheduler, a state reached by two [start()] calls that return true
    then false is one in which [start()] does not return true. *)
Lemma start_twice_when_scheduled :
  (let s := registerRoutes Scheduler.State Scheduler.startCrawlerJob
              Scheduler.initial in
   Scheduler.status s = Scheduler.SCHEDULED
   /\ fst (Scheduler.start s) = false
   /\ fst (Scheduler.start (snd (Scheduler.start s))) = false
   /\ fst (scheduler_start Scheduler.State Scheduler.startCrawlerJob s)
      = Message 400 "Crawler job is already running")
  /\ (forall (Sched : Type) (startCrawlerJob : Sched -> outcome bool * Sched)
             (s : Sched),
        fst (startCrawlerJob (snd (startCrawlerJob s))) = Returns false ->
        fst (scheduler_start Sched startCrawlerJob
               (snd (scheduler_start Sched startCrawlerJob s)))
        = Message 400 "Crawler job is already running").
Proof.
  split; [repeat split|].
  intros Sched startJob s. unfold scheduler_start.
  destruct (startJob s) as [[[|]|e] s1]; simpl;
    destruct (startJob s1) as [[[|]|e'] s2]; simpl;
    intros H; (reflexivity || discriminate H).
Qed.

(* ================================================================== *)
(** * Properties of the query engine *)
(* ================================================================== *)

Section EngineFacts.

Variable A : Type.
Variable ident : A -> Z.
Variable compare_by : string -> A -> A -> comparison.

Lemma insert_sorted_In (field : string) (asc : bool) (a x : A) (l : list A) :
  In x (insert_sorted A ident compare_by field asc a l) <-> x = a \/ In x l.
Proof.
  induction l as [|b l IH]; simpl.
  - intuition.
  - destruct (precedes A ident compare_by field asc a b); simpl.
    + intuition.
    + rewrite IH. intuition.
Qed.

Lemma insert_sorted_length (field : string) (asc : bool) (a : A) (l : list A) :
  List.length (insert_sorted A ident compare_by field asc a l)
  = S (List.length l).
Proof.
  induction l as [|b l IH]; simpl; [reflexivity|].
  destruct (precedes A ident compare_by field asc a b); simpl; [reflexivity|].
  now rewrite IH.
Qed.

Lemma sort_items_In (field : string) (asc : bool) (x : A) (l : list A) :
  In x (sort_items A ident compare_by field asc l) <-> In x l.
Proof.
  unfold sort_items. induction l as [|a l IH]; simpl; [reflexivity|].
  rewrite insert_sorted_In, IH. intuition.
Qed.

Lemma sort_items_length (field : string) (asc : bool) (l : list A) :
  List.length (sort_items A ident compare_by field asc l) = List.length l.
Proof.
  unfold sort_items. induction l as [|a l IH]; simpl; [reflexivity|].
  now rewrite insert_sorted_length, IH.
Qed.

(** Sorting rearranges: every item is kept, as many times as it occurs. *)
Lemma insert_sorted_Permutation (field : string) (asc : bool) (a : A) (l : list A) :
  Permutation (insert_sorted A ident compare_by field asc a l) (a :: l).
Proof.
  induction l as [|b l IH]; simpl; [apply Permutation_refl|].
  destruct (precedes A ident compare_by field asc a b); [apply Permutation_refl|].
  apply perm_trans with (b :: a :: l); [now apply perm_skip | apply perm_swap].
Qed.

Lemma sort_items_Permutation (field : string) (asc : bool) (l : list A) :
  Permutation (sort_items A ident compare_by field asc l) l.
Proof.
  unfold sort_items. induction l as [|a l IH]; simpl; [apply perm_nil|].
  eapply perm_trans; [apply insert_sorted_Permutation | now apply perm_skip].
Qed.

(** When comparing two items the other way round gives the opposite
    answer, each item of a sorted listing precedes the next one in the
    order asked for, ties in the order of the identifiers. *)
Hypothesis compare_by_opposite :
  forall (field : string) (a b : A),
    compare_by field b a = CompOpp (compare_by field a b).

Lemma precedes_total (field : string) (asc : bool) (a b : A) :
  precedes A ident compare_by field asc a b = false ->
  precedes A ident compare_by field asc b a = true.
Proof.
  unfold precedes. rewrite (compare_by_opposite field a b).
  destruct (compare_by field a b), asc; simpl; try discriminate; try reflexivity.
  - intros H. apply Z.leb_gt in H. apply Z.leb_le. lia.
  - intros H. apply Z.leb_gt in H. apply Z.leb_le. lia.
Qed.

Lemma insert_sorted_Sorted (field : string) (asc : bool) (a : A) (l : list A) :
  Sorted (fun x y => precedes A ident compare_by field asc x y = true) l ->
  Sorted (fun x y => precedes A ident compare_by field asc x y = true)
    (insert_sorted A ident compare_by field asc a l).
Proof.
  induction l as [|b l IH]; intros S; simpl.
  - repeat constructor.
  - destruct (precedes A ident compare_by field asc a b) eqn:E.
    + constructor; [exact S | now constructor].
    + inversion S as [|x xs Sl Hb]; subst. constructor; [now apply IH|].
      apply precedes_total in E.
      destruct l as [|c l]; simpl; [now constructor|].
      destruct (precedes A ident compare_by field asc a c); [now constructor|].
      inversion Hb; subst. now constructor.
Qed.

Lemma sort_items_Sorted (field : string) (asc : bool) (l : list A) :
  Sorted (fun x y => precedes A ident compare_by field asc x y = true)
    (sort_items A ident compare_by field asc l).
Proof.
  unfold sort_items. induction l as [|a l IH]; simpl; [constructor|].
  now apply insert_sorted_Sorted.
Qed.

End EngineFacts.

Lemma as_count_int (n : nat) : as_count (int (Z.of_nat n)) = Some n.
Proof.
  unfold as_count, int.
  rewrite Qcanon.Qred_identity by (simpl; apply Z.gcd_1_r).
  simpl. replace (0 <=? Z.of_nat n) with true by (symmetry; apply Z.leb_le; lia).
  simpl. now rewrite Nat2Z.id.
Qed.

Lemma bound_or_int (default n : nat) :
  bound_or default (Some (int (Z.of_nat n))) = n.
Proof. unfold bound_or. cbn [option_map]. now rewrite as_count_int. Qed.

(** The limit the storage applies and the limit echoed back. *)
Lemma limit_asked (param : option string) (n : nat) :
  asks_for 10 param n ->
  bound_or 10 (parse_if_truthy (with_default 10 param)) = n
  /\ parseInt_param (with_default 10 param) = echoed param n.
Proof.
  unfold asks_for, echoed, parse_if_truthy. destruct param as [s|]; simpl.
  - destruct (String.eqb s "") eqn:E; simpl.
    + intros ->. apply String.eqb_eq in E. subst s. split; reflexivity.
    + intros P. rewrite P. split; [apply bound_or_int | reflexivity].
  - intros ->. split; [apply (bound_or_int 10 10) | reflexivity].
Qed.

(** The offset the storage applies and the offset echoed back: the
    default 0 reaches the storage as [undefined]. *)
Lemma offset_asked (param : option string) (n : nat) :
  asks_for 0 param n ->
  bound_or 0 (parse_if_truthy (with_default 0 param)) = n
  /\ parseInt_param (with_default 0 param) = echoed param n.
Proof.
  unfold asks_for, echoed, parse_if_truthy. destruct param as [s|]; simpl.
  - destruct (String.eqb s "") eqn:E; simpl.
    + intros ->. apply String.eqb_eq in E. subst s. split; reflexivity.
    + intros P. rewrite P. split; [apply bound_or_int | reflexivity].
  - intros ->. split; reflexivity.
Qed.

(** The direction the handlers pass on, [sortDirection || 'desc'], is
    ascending exactly when the query asks for it. *)
Lemma ascending_or_desc (sortDirection : option string) :
  ascending (Some (or_desc sortDirection)) = ascending sortDirection.
Proof.
  destruct sortDirection as [s|]; simpl; [|reflexivity].
  destruct (String.eqb s "") eqn:E; [|reflexivity].
  apply String.eqb_eq in E. now subst s.
Qed.

Lemma In_firstn (A : Type) (n : nat) (l : list A) (x : A) :
  In x (firstn n l) -> In x l.
Proof.
  intros H. rewrite <- (firstn_skipn n l). apply in_or_app. now left.
Qed.

(* ================================================================== *)
(** * Properties of the listing routes over the modelled storage *)
(* ================================================================== *)

Lemma supplied_parse_if_given (A : Type) (param : option string)
  (test : number -> A -> bool) (a : A) :
  supplied (parse_if_given param) test a = number_wanted param test a.
Proof.
  destruct param as [s|]; simpl; [|reflexivity].
  now destruct (String.eqb s "").
Qed.

(** The filter object of the opportunity listing selects the
    opportunities the query asks for. *)
Lemma opportunity_matches_wanted (q : OpportunitiesQuery) (o : Opportunity) :
  Storage.opportunity_matches (opportunities_page_filters q) o
  = opportunity_wanted q o.
Proof.
  unfold Storage.opportunity_matches, opportunity_wanted, opportunities_page_filters.
  cbn [by_threadId by_intent by_score by_scoreMin by_scoreMax by_serpMatch
       by_action].
  rewrite !supplied_parse_if_given.
  repeat f_equal.
  destruct (q_serpMatch q) as [s|]; simpl; [|reflexivity].
  now destruct (String.eqb s "").
Qed.

Section StorageListingFacts.

Variable compare_threads : string -> Thread -> Thread -> comparison.
Variable compare_opportunities : string -> Opportunity -> Opportunity -> comparison.
Variable serpRank_matches : string -> Thread -> bool.
Variable affiliateProgram_matches : string -> Thread -> bool.
Variable st : Storage.Store.

(** The whole answer holds the threads asked for and no other. *)
Lemma threads_wanted_In (q : ThreadsQuery) (t : Thread) :
  In t (threads_wanted compare_threads serpRank_matches affiliateProgram_matches
          st q)
  <-> In t (Storage.threads st)
      /\ thread_wanted serpRank_matches affiliateProgram_matches q t = true.
Proof. unfold threads_wanted. rewrite sort_items_In. apply filter_In. Qed.

Lemma opportunities_wanted_In (q : OpportunitiesQuery) (o : Opportunity) :
  In o (opportunities_wanted compare_opportunities st q)
  <-> In o (Storage.opportunities st) /\ opportunity_wanted q o = true.
Proof. unfold opportunities_wanted. rewrite sort_items_In. apply filter_In. Qed.


Lemma list_opportunities_window (q : OpportunitiesQuery) (l o : nat) :
  asks_for 10 (q_limit q) l ->
  asks_for 0 (q_offset q) o ->
  exists page,
    list_opportunities (Storage.getOpportunities compare_opportunities st) q
    = Json 200 page
    /\ listed page
       = firstn l (skipn o (opportunities_wanted compare_opportunities st q))
    /\ limit page = echoed (q_limit q) l
    /\ offset page = echoed (q_offset q) o.
Proof.
  intros Hl Ho. unfold list_opportunities, Storage.getOpportunities.
  eexists. split; [reflexivity|]. cbn [listed limit offset].
  destruct (limit_asked _ _ Hl) as [Bl El].
  destruct (offset_asked _ _ Ho) as [Bo Eo].
  split; [|split; assumption].
  unfold query, paginate, opportunities_wanted.
  cbn [opportunities_page_filters opportunities_limit opportunities_offset
       opportunities_sortBy opportunities_sortDirection].
  rewrite Bl, Bo, ascending_or_desc.
  do 3 f_equal. apply filter_ext. intros x.
  apply (opportunity_matches_wanted q x).
Qed.

End StorageListingFacts.



(** By score, the whole answer to an opportunity query is in the order
    asked for. *)
Lemma by_score_value_opposite (field : string) (a b : Opportunity) :
  by_score_value field b a = CompOpp (by_score_value field a b).
Proof. unfold by_score_value. symmetry. apply Qcompare_antisym. Qed.

Lemma opportunities_wanted_by_score_Sorted (st : Storage.Store)
  (q : OpportunitiesQuery) :
  Sorted
    (fun x y =>
       precedes Opportunity opportunity_id by_score_value
         (match q_sortBy q with Some f => f | None => "score" end)
         (ascending (q_sortDirection q)) x y = true)
    (opportunities_wanted by_score_value st q).
Proof.
  unfold opportunities_wanted.
  apply sort_items_Sorted. exact by_score_value_opposite.
Qed.

(** The whole answer to the query for the third page of five: the 23
    opportunities, highest score first. *)
Example whole_answer_of_23 :
  opportunities_wanted by_score_value sample_store third_page_of_five
  = map (fun n => opportunity_scored n (10 * n))
      [23; 22; 21; 20; 19; 18; 17; 16; 15; 14; 13; 12; 11; 10; 9; 8; 7; 6; 5;
       4; 3; 2; 1].
Proof. reflexivity. Qed.

(** The page of five after the first ten of 23 opportunities, highest
    score first: the items ranked 11 to 15. The total request names no
    limit, so that the storage applies its default of ten to it. *)
Example third_page_of_23 :
  list_opportunities (Storage.getOpportunities by_score_value sample_store)
    third_page_of_five
  = Json 200
      {| listed := map (fun n => opportunity_scored n (10 * n)) [13; 12; 11; 10; 9];
         total := 10;
         limit := int 5;
         offset := int 10 |}.
Proof. reflexivity. Qed.

(** An empty limit parameter names no limit: the page is the first ten,
    and the limit echoed back is [NaN]. *)
Example empty_limit_is_default :
  option_map (fun page => (List.length (listed page), limit page))
    match list_opportunities (Storage.getOpportunities by_score_value sample_store)
            {| q_threadId := None; q_intent := None; q_score := None;
               q_scoreMin := None; q_scoreMax := None; q_serpMatch := None;
               q_action := None; q_limit := Some ""; q_offset := None;
               q_sortBy := None; q_sortDirection := None |}
    with
    | Json _ page => Some page
    | _ => None
    end
  = Some (10%nat, NaN).
Proof. reflexivity. Qed.

(** With the score range as the only predicate, the opportunities asked
    for are those within the range. *)
Lemma score_range_wanted_query
  (compare_opportunities : string -> Opportunity -> Opportunity -> comparison)
  (st : Storage.Store) (scoreMin scoreMax : string) (lo hi : Z)
  (sortBy sortDirection : option string) :
  scoreMin <> "" -> parseInt scoreMin = int lo ->
  scoreMax <> "" -> parseInt scoreMax = int hi ->
  opportunities_wanted compare_opportunities st
    (score_range_query scoreMin scoreMax sortBy sortDirection)
  = score_range_wanted compare_opportunities st lo hi sortBy sortDirection.
Proof.
  intros Hmin Pmin Hmax Pmax.
  unfold opportunities_wanted, score_range_wanted. simpl.
  f_equal. apply filter_ext. intros o.
  unfold opportunity_wanted, number_wanted, in_score_range. simpl.
  apply String.eqb_neq in Hmin, Hmax.
  rewrite Hmin, Hmax, Pmin, Pmax, !andb_true_r. reflexivity.
Qed.

Lemma score_range_wanted_In
  (compare_opportunities : string -> Opportunity -> Opportunity -> comparison)
  (st : Storage.Store) (lo hi : Z) (sortBy sortDirection : option string)
  (o : Opportunity) :
  In o (score_range_wanted compare_opportunities st lo hi sortBy sortDirection)
  <-> In o (Storage.opportunities st)
      /\ (inject_Z lo <= score o /\ score o <= inject_Z hi)%Q.
Proof.
  unfold score_range_wanted, in_score_range.
  rewrite sort_items_In, filter_In, andb_true_iff, !Qle_bool_iff. reflexivity.
Qed.

(** C7 (as amended): the opportunity listing asked for the score range
    [scoreMin], [scoreMax] only (as with 50 and 80), limit and offset left
    out, returns the first ten, in the sort order, of the stored
    opportunities whose score lies in the closed interval. Every
    opportunity returned is a stored one inside the bounds, the bounds
    themselves included; when at most ten stored opportunities lie inside
    the bounds, exactly those are returned. *)
Theorem score_range_is_closed_interval :
  forall (compare_opportunities : string -> Opportunity -> Opportunity -> comparison)
         (st : Storage.Store) (scoreMin scoreMax : string) (lo hi : Z)
         (sortBy sortDirection : option string),
    scoreMin <> "" -> parseInt scoreMin = int lo ->
    scoreMax <> "" -> parseInt scoreMax = int hi ->
    exists page,
      list_opportunities (Storage.getOpportunities compare_opportunities st)
        (score_range_query scoreMin scoreMax sortBy sortDirection)
      = Json 200 page
      /\ listed page
         = firstn 10
             (score_range_wanted compare_opportunities st lo hi sortBy
                sortDirection)
      /\ (forall o, In o (listed page) ->
                    In o (Storage.opportunities st)
                    /\ (inject_Z lo <= score o /\ score o <= inject_Z hi)%Q)
      /\ ((List.length (filter (in_score_range lo hi) (Storage.opportunities st))
           <= 10)%nat ->
          forall o, In o (listed page)
                    <-> In o (Storage.opportunities st)
                        /\ (inject_Z lo <= score o /\ score o <= inject_Z hi)%Q).
Proof.
  intros cmp st smin smax lo hi sortBy sortDirection Hmin Pmin Hmax Pmax.
  destruct (list_opportunities_window cmp st
              (score_range_query smin smax sortBy sortDirection) 10 0
              eq_refl eq_refl)
    as (page & Hpage & Hwin & _ & _).
  rewrite (score_range_wanted_query cmp st smin smax lo hi sortBy sortDirection
             Hmin Pmin Hmax Pmax) in Hwin.
  cbn [skipn] in Hwin.
  exists page. split; [exact Hpage|]. split; [exact Hwin|]. split.
  - intros o Ho. rewrite Hwin in Ho. apply In_firstn in Ho.
    now apply score_range_wanted_In in Ho.
  - intros Hfew o. rewrite Hwin, firstn_all2.
    + apply score_range_wanted_In.
    + unfold score_range_wanted. now rewrite sort_items_length.
Qed.

Lemma score_range_is_closed_interval_witness :
  exists page,
    list_opportunities (Storage.getOpportunities by_score_value sample_store)
      (score_range_query "50" "80" None None)
    = Json 200 page
    /\ listed page
       = firstn 10 (score_range_wanted by_score_value sample_store 50 80 None None)
    /\ (forall o, In o (listed page) ->
                  In o (Storage.opportunities sample_store)
                  /\ (inject_Z 50 <= score o /\ score o <= inject_Z 80)%Q)
    /\ ((List.length (filter (in_score_range 50 80)
                        (Storage.opportunities sample_store)) <= 10)%nat ->
        forall o, In o (listed page)
                  <-> In o (Storage.opportunities sample_store)
                      /\ (inject_Z 50 <= score o /\ score o <= inject_Z 80)%Q).
Proof.
  refine (score_range_is_closed_interval by_score_value sample_store
            "50" "80" 50 80 None None _ eq_refl _ eq_refl); discriminate.
Defined.

(** The range 50 to 80 over the sample table: the opportunities scored
    80, 70, 60 and 50. *)
Example score_range_50_80 :
  list_opportunities (Storage.getOpportunities by_score_value sample_store)
    (score_range_query "50" "80" None None)
  = Json 200
      {| listed := map (fun n => opportunity_scored n (10 * n)) [8; 7; 6; 5];
         total := 4;
         limit := int 10;
         offset := int 0 |}.
Proof. reflexivity. Qed.

(** C7 (as stated) fails when more than ten opportunities lie in the
    range: of eleven opportunities scored 60 the listing asked for the
    range 50 to 80 returns ten, and the eleventh, which lies in the
    range, is not among them. *)
Lemma score_range_page_leaves_one_out :
  exists page,
    list_opportunities (Storage.getOpportunities by_score_value eleven_scored_60)
      (score_range_query "50" "80" None None)
    = Json 200 page
    /\ List.length (listed page) = 10%nat
    /\ In (opportunity_scored 11 60) (Storage.opportunities eleven_scored_60)
    /\ (inject_Z 50 <= score (opportunity_scored 11 60)
        /\ score (opportunity_scored 11 60) <= inject_Z 80)%Q
    /\ ~ In (opportunity_scored 11 60) (listed page).
Proof.
  eexists. split; [reflexivity|]. split; [reflexivity|]. split.
  - simpl. tauto.
  - split; [split; discriminate|].
    cbn [listed]. intros H.
    apply (in_map opportunity_id) in H. vm_compute in H.
    repeat (destruct H as [H|H]; [discriminate H|]). exact H.
Qed.

(* ================================================================== *)
(** * Properties of the refresh *)
(* ================================================================== *)

Section UpsertFacts.

Implicit Types (mk : Z -> Opportunity) (tid : Z) (rows : list Opportunity).

Lemma overwrite_rewrite_first mk tid rows :
  Storage.overwrite mk tid rows
  = if covers rows tid then Some (rewrite_first mk tid rows) else None.
Proof.
  induction rows as [|o rows IH]; simpl; [reflexivity|].
  destruct (threadId o =? tid); simpl; [reflexivity|].
  rewrite IH. now destruct (covers rows tid).
Qed.

Lemma upsert_covered mk tid rows (next : Z) :
  covers rows tid = true ->
  Storage.upsert mk tid (rows, next) = (rewrite_first mk tid rows, next).
Proof.
  intros H. unfold Storage.upsert. now rewrite overwrite_rewrite_first, H.
Qed.

Lemma upsert_fresh mk tid rows (next : Z) :
  covers rows tid = false ->
  Storage.upsert mk tid (rows, next) = ((rows ++ [mk next])%list, next + 1).
Proof.
  intros H. unfold Storage.upsert. now rewrite overwrite_rewrite_first, H.
Qed.

Lemma covers_app rows (more : list Opportunity) tid :
  covers (rows ++ more) tid = covers rows tid || covers more tid.
Proof. apply existsb_app. Qed.

Lemma covers_rewrite_first mk tid rows (k : Z) :
  keyed (tid, mk) -> covers (rewrite_first mk tid rows) k = covers rows k.
Proof.
  intros K. induction rows as [|o rows IH]; simpl; [reflexivity|].
  destruct (threadId o =? tid) eqn:E; simpl.
  - destruct (K (opportunity_id o)) as [_ Ht]. simpl in Ht. rewrite Ht.
    apply Z.eqb_eq in E. now rewrite E.
  - now rewrite IH.
Qed.

(** A second write to the same thread replaces the first. *)
Lemma rewrite_first_absorbs mk mk' tid rows :
  keyed (tid, mk) ->
  rewrite_first mk' tid (rewrite_first mk tid rows) = rewrite_first mk' tid rows.
Proof.
  intros K. induction rows as [|o rows IH]; simpl; [reflexivity|].
  destruct (threadId o =? tid) eqn:E; simpl.
  - destruct (K (opportunity_id o)) as [Hi Ht]. simpl in Hi, Ht.
    now rewrite Ht, Z.eqb_refl, Hi.
  - now rewrite E, IH.
Qed.

(** Writes to different threads commute. *)
Lemma rewrite_first_commutes mk mk' tid tid' rows :
  keyed (tid, mk) -> keyed (tid', mk') -> tid <> tid' ->
  rewrite_first mk tid (rewrite_first mk' tid' rows)
  = rewrite_first mk' tid' (rewrite_first mk tid rows).
Proof.
  intros K K' D. induction rows as [|o rows IH]; simpl; [reflexivity|].
  destruct (threadId o =? tid') eqn:E'; destruct (threadId o =? tid) eqn:E; simpl.
  - apply Z.eqb_eq in E, E'. congruence.
  - destruct (K' (opportunity_id o)) as [_ Ht]. simpl in Ht.
    rewrite Ht, E'. apply Z.eqb_neq in D. rewrite Z.eqb_sym in D. now rewrite D.
  - destruct (K (opportunity_id o)) as [_ Ht]. simpl in Ht.
    rewrite Ht, E. apply Z.eqb_neq in D. now rewrite D.
  - now rewrite E, E', IH.
Qed.

Lemma rewrite_first_app mk tid rows (more : list Opportunity) :
  covers rows tid = true ->
  rewrite_first mk tid (rows ++ more) = (rewrite_first mk tid rows ++ more)%list.
Proof.
  induction rows as [|o rows IH]; simpl; [discriminate|].
  destruct (threadId o =? tid); simpl; [reflexivity|].
  intros H. now rewrite IH.
Qed.

Lemma rewrite_first_fresh mk tid rows (id : Z) :
  keyed (tid, mk) -> covers rows tid = false ->
  rewrite_first mk tid (rows ++ [mk id]) = (rows ++ [mk id])%list.
Proof.
  intros K. induction rows as [|o rows IH]; simpl.
  - intros _. destruct (K id) as [Hi Ht]. simpl in Hi, Ht.
    now rewrite Ht, Z.eqb_refl, Hi.
  - destruct (threadId o =? tid); simpl; [discriminate|].
    intros H. now rewrite IH.
Qed.

Lemma rewrite_first_absent mk tid rows :
  covers rows tid = false -> rewrite_first mk tid rows = rows.
Proof.
  induction rows as [|o rows IH]; simpl; [reflexivity|].
  destruct (threadId o =? tid); simpl; [discriminate|].
  intros H. now rewrite IH.
Qed.

(** A write to a thread makes its first row the row written. *)
Lemma first_row_rewrite_first mk tid rows :
  keyed (tid, mk) -> covers rows tid = true ->
  exists o, first_row (rewrite_first mk tid rows) tid = Some o
            /\ o = mk (opportunity_id o).
Proof.
  intros K. unfold first_row.
  induction rows as [|r rows IH]; simpl; [discriminate|].
  destruct (threadId r =? tid) eqn:E; simpl.
  - intros _. destruct (K (opportunity_id r)) as [Hi Ht]. simpl in Hi, Ht.
    rewrite Ht, Z.eqb_refl. eexists. split; [reflexivity|]. now rewrite Hi.
  - rewrite E. exact IH.
Qed.

Lemma first_row_fresh mk tid rows (id : Z) :
  keyed (tid, mk) -> covers rows tid = false ->
  first_row (rows ++ [mk id]) tid = Some (mk id).
Proof.
  intros K. destruct (K id) as [_ Ht]. simpl in Ht. unfold first_row.
  induction rows as [|r rows IH]; simpl.
  - intros _. now rewrite Ht, Z.eqb_refl.
  - destruct (threadId r =? tid); simpl; [discriminate|]. exact IH.
Qed.

(** A write to another thread leaves the first row of a thread alone. *)
Lemma first_row_rewrite_other mk tid rows (k : Z) :
  keyed (tid, mk) -> k <> tid ->
  first_row (rewrite_first mk tid rows) k = first_row rows k.
Proof.
  intros K D. unfold first_row.
  induction rows as [|r rows IH]; simpl; [reflexivity|].
  destruct (threadId r =? tid) eqn:E; simpl.
  - destruct (K (opportunity_id r)) as [_ Ht]. simpl in Ht. rewrite Ht.
    apply Z.eqb_eq in E. rewrite E.
    assert (N : (tid =? k) = false) by (apply Z.eqb_neq; congruence).
    now rewrite N.
  - now rewrite IH.
Qed.

Lemma first_row_app rows (more : list Opportunity) (k : Z) (o : Opportunity) :
  first_row rows k = Some o -> first_row (rows ++ more) k = Some o.
Proof.
  unfold first_row. induction rows as [|r rows IH]; simpl; [discriminate|].
  now destruct (threadId r =? k).
Qed.

(** An upsert writes the row of its thread and keeps the first rows of
    the other threads. *)
Lemma upsert_writes mk tid rows (next : Z) :
  keyed (tid, mk) ->
  exists o, first_row (fst (Storage.upsert mk tid (rows, next))) tid = Some o
            /\ o = mk (opportunity_id o).
Proof.
  intros K. destruct (covers rows tid) eqn:C.
  - rewrite (upsert_covered _ _ _ _ C). now apply first_row_rewrite_first.
  - rewrite (upsert_fresh _ _ _ _ C). simpl. exists (mk next).
    split; [now apply first_row_fresh|].
    destruct (K next) as [Hi _]. simpl in Hi. now rewrite Hi.
Qed.

Lemma upsert_keeps mk tid rows (next k : Z) (o : Opportunity) :
  keyed (tid, mk) -> k <> tid ->
  first_row rows k = Some o ->
  first_row (fst (Storage.upsert mk tid (rows, next))) k = Some o.
Proof.
  intros K D F. destruct (covers rows tid) eqn:C.
  - rewrite (upsert_covered _ _ _ _ C). simpl.
    now rewrite first_row_rewrite_other.
  - rewrite (upsert_fresh _ _ _ _ C). simpl. now apply first_row_app.
Qed.

End UpsertFacts.

Section PassFacts.

Implicit Types (ws : list write) (rows : list Opportunity).

Lemma upsert_all_cons (tid : Z) (mk : Z -> Opportunity) ws
  (table : list Opportunity * Z) :
  upsert_all ((tid, mk) :: ws) table = upsert_all ws (Storage.upsert mk tid table).
Proof. reflexivity. Qed.

Lemma rewrite_all_cons (tid : Z) (mk : Z -> Opportunity) ws rows :
  rewrite_all ((tid, mk) :: ws) rows = rewrite_all ws (rewrite_first mk tid rows).
Proof. reflexivity. Qed.

Lemma upsert_all_snoc (tid : Z) (mk : Z -> Opportunity) ws
  (table : list Opportunity * Z) :
  upsert_all (ws ++ [(tid, mk)]) table = Storage.upsert mk tid (upsert_all ws table).
Proof. unfold upsert_all. now rewrite fold_left_app. Qed.

Lemma rewrite_all_snoc (tid : Z) (mk : Z -> Opportunity) ws rows :
  rewrite_all (ws ++ [(tid, mk)]) rows = rewrite_first mk tid (rewrite_all ws rows).
Proof. unfold rewrite_all. now rewrite fold_left_app. Qed.

(** After a pass the first row of a thread is the row of the last write
    to it. *)
Lemma upsert_all_writes ws :
  Forall keyed ws ->
  forall (table : list Opportunity * Z) (k : Z) (x : write),
    last_write ws k = Some x ->
    exists o, first_row (fst (upsert_all ws table)) k = Some o
              /\ o = snd x (opportunity_id o).
Proof.
  induction ws as [|[tid mk] ws IH] using rev_ind; intros K table k x L.
  - discriminate L.
  - apply Forall_app in K. destruct K as [K Ky].
    inversion Ky as [|y ys Kx _]; subst.
    rewrite upsert_all_snoc.
    unfold last_write in L. rewrite rev_app_distr in L. simpl in L.
    destruct (upsert_all ws table) as [rows next] eqn:T.
    destruct (tid =? k) eqn:E.
    + injection L as <-. apply Z.eqb_eq in E. subst k.
      now apply upsert_writes.
    + destruct (IH K table k x L) as (o & F & Ho).
      rewrite T in F. simpl in F.
      exists o. split; [|exact Ho].
      apply upsert_keeps; [exact Kx| |exact F].
      apply Z.eqb_neq in E. congruence.
Qed.

Lemma covers_rewrite_all ws rows (k : Z) :
  Forall keyed ws -> covers (rewrite_all ws rows) k = covers rows k.
Proof.
  intros K. revert rows. induction K as [|[tid mk] ws Kw K IH]; intros rows.
  - reflexivity.
  - rewrite rewrite_all_cons, IH. now apply covers_rewrite_first.
Qed.

(** On a table that has a row for every thread, a pass only rewrites. *)
Lemma upsert_all_covered ws rows (next : Z) :
  Forall keyed ws ->
  (forall k, In k (map fst ws) -> covers rows k = true) ->
  upsert_all ws (rows, next) = (rewrite_all ws rows, next).
Proof.
  intros K. revert rows. induction K as [|[tid mk] ws Kw K IH]; intros rows C.
  - reflexivity.
  - rewrite upsert_all_cons, rewrite_all_cons.
    rewrite upsert_covered by (apply C; now left).
    apply IH. intros k Hk. rewrite covers_rewrite_first by assumption.
    apply C. now right.
Qed.

(** A write to a thread the pass writes again leaves no trace. *)
Lemma rewrite_all_absorbs ws rows (tid : Z) (mk : Z -> Opportunity) :
  Forall keyed ws -> keyed (tid, mk) -> In tid (map fst ws) ->
  rewrite_all ws (rewrite_first mk tid rows) = rewrite_all ws rows.
Proof.
  intros K Kt. revert rows. induction K as [|[tid' mk'] ws Kw K IH]; intros rows H.
  - destruct H.
  - rewrite !rewrite_all_cons. destruct (Z.eq_dec tid' tid) as [->|D].
    + now rewrite rewrite_first_absorbs.
    + destruct H as [H|H]; [simpl in H; congruence|].
      rewrite (rewrite_first_commutes mk' mk tid' tid) by assumption.
      now apply IH.
Qed.

Lemma rewrite_all_commutes ws rows (tid : Z) (mk : Z -> Opportunity) :
  Forall keyed ws -> keyed (tid, mk) -> ~ In tid (map fst ws) ->
  rewrite_all ws (rewrite_first mk tid rows)
  = rewrite_first mk tid (rewrite_all ws rows).
Proof.
  intros K Kt. revert rows. induction K as [|[tid' mk'] ws Kw K IH]; intros rows H.
  - reflexivity.
  - rewrite !rewrite_all_cons. simpl in H.
    rewrite (rewrite_first_commutes mk' mk tid' tid) by intuition.
    apply IH. intuition.
Qed.

Lemma rewrite_all_app ws rows (more : list Opportunity) :
  Forall keyed ws ->
  (forall k, In k (map fst ws) -> covers rows k = true) ->
  rewrite_all ws (rows ++ more) = (rewrite_all ws rows ++ more)%list.
Proof.
  intros K. revert rows. induction K as [|[tid mk] ws Kw K IH]; intros rows C.
  - reflexivity.
  - rewrite !rewrite_all_cons.
    rewrite rewrite_first_app by (apply C; now left).
    apply IH. intros k Hk. rewrite covers_rewrite_first by assumption.
    apply C. now right.
Qed.

(** After a pass every thread written has a row, and writing the same
    rows once more changes nothing. *)
Lemma upsert_all_fixpoint ws :
  Forall keyed ws ->
  forall rows (next : Z),
    (forall k, In k (map fst ws) ->
               covers (fst (upsert_all ws (rows, next))) k = true)
    /\ rewrite_all ws (fst (upsert_all ws (rows, next)))
       = fst (upsert_all ws (rows, next)).
Proof.
  induction ws as [|[tid mk] us IH] using rev_ind; intros K rows next.
  - split; [intros k []|reflexivity].
  - apply Forall_app in K. destruct K as [Kus Kw].
    apply Forall_inv in Kw.
    rewrite upsert_all_snoc.
    destruct (IH Kus rows next) as [C F].
    destruct (upsert_all us (rows, next)) as [rows1 next1]. simpl in C, F.
    destruct (covers rows1 tid) eqn:E.
    + rewrite upsert_covered by assumption. simpl fst.
      rewrite rewrite_all_snoc. split.
      * intros k Hk. rewrite covers_rewrite_first by assumption.
        rewrite map_app in Hk. apply in_app_or in Hk.
        destruct Hk as [Hk|[<-|[]]]; [now apply C|exact E].
      * destruct (in_dec Z.eq_dec tid (map fst us)) as [I|I].
        -- rewrite rewrite_all_absorbs by assumption. now rewrite F.
        -- rewrite rewrite_all_commutes by assumption.
           rewrite F. now apply rewrite_first_absorbs.
    + rewrite upsert_fresh by assumption. simpl fst.
      rewrite rewrite_all_snoc. split.
      * intros k Hk. rewrite covers_app.
        rewrite map_app in Hk. apply in_app_or in Hk.
        destruct Hk as [Hk|[<-|[]]]; [now rewrite C|].
        simpl. destruct (Kw next1) as [_ Ht]. simpl in Ht.
        rewrite Ht, Z.eqb_refl. now rewrite orb_true_r.
      * rewrite rewrite_all_app by assumption. rewrite F.
        now apply rewrite_first_fresh.
Qed.

(** Rows and writes that agree up to the timestamp stay so. *)
Lemma rewrite_first_content (mk mk' : Z -> Opportunity) (tid : Z) rows rows' :
  (forall id, Storage.content (mk id) = Storage.content (mk' id)) ->
  map Storage.content rows = map Storage.content rows' ->
  map Storage.content (rewrite_first mk tid rows)
  = map Storage.content (rewrite_first mk' tid rows').
Proof.
  intros M. revert rows'.
  induction rows as [|o rows IH]; intros [|o' rows'] H; simpl in *;
    try discriminate; [reflexivity|].
  assert (Ho : Storage.content o = Storage.content o')
    by exact (f_equal (hd (Storage.content o)) H).
  assert (Hr : map Storage.content rows = map Storage.content rows')
    by exact (f_equal (@tl _) H).
  assert (Ht : threadId o = threadId o') by exact (f_equal threadId Ho).
  assert (Hi : opportunity_id o = opportunity_id o')
    by exact (f_equal opportunity_id Ho).
  rewrite Ht, Hi. destruct (threadId o' =? tid); simpl.
  - now rewrite M, Hr.
  - now rewrite Ho, (IH rows').
Qed.

Lemma rewrite_all_content ws ws' rows rows' :
  Forall2 (fun w w' => fst w = fst w'
                       /\ forall id, Storage.content (snd w id)
                                     = Storage.content (snd w' id)) ws ws' ->
  map Storage.content rows = map Storage.content rows' ->
  map Storage.content (rewrite_all ws rows)
  = map Storage.content (rewrite_all ws' rows').
Proof.
  intros R. revert rows rows'.
  induction R as [|[tid mk] [tid' mk'] ws ws' [Hk Hm] R IH]; intros rows rows' H.
  - exact H.
  - rewrite !rewrite_all_cons. simpl in Hk, Hm. subst tid'.
    apply IH. now apply rewrite_first_content.
Qed.

End PassFacts.

Section RefreshFacts.

Variable w : Weights.

Lemma refreshAll_upsert_all (now : Z) (st : Storage.Store) :
  Storage.refreshAll w now st
  = (List.length (Storage.threads st),
     {| Storage.threads := Storage.threads st;
        Storage.programs := Storage.programs st;
        Storage.serpResults := Storage.serpResults st;
        Storage.opportunities :=
          fst (upsert_all (writes_of w now st)
                 (Storage.opportunities st, Storage.nextOpportunityId st));
        Storage.nextOpportunityId :=
          snd (upsert_all (writes_of w now st)
                 (Storage.opportunities st, Storage.nextOpportunityId st)) |}).
Proof.
  unfold Storage.refreshAll, upsert_all, writes_of.
  generalize (Storage.opportunities st, Storage.nextOpportunityId st).
  generalize (Storage.programs st) (Storage.serpResults st).
  intros ps rs table.
  assert (E : forall ts (n : nat) table,
             fold_left
               (fun acc t =>
                  (S (fst acc),
                   Storage.upsert (Storage.assess w ps rs now t) (thread_id t)
                     (snd acc)))
               ts (n, table)
             = ((n + List.length ts)%nat,
                fold_left
                  (fun table (x : write) => Storage.upsert (snd x) (fst x) table)
                  (map (fun t => (thread_id t, Storage.assess w ps rs now t)) ts)
                  table)).
  { induction ts as [|t ts IH]; intros n tb; simpl.
    - now rewrite Nat.add_0_r.
    - rewrite IH. f_equal. lia. }
  now rewrite E.
Qed.

Lemma writes_of_keyed (now : Z) (st : Storage.Store) :
  Forall keyed (writes_of w now st).
Proof.
  unfold writes_of. apply Forall_forall. intros x Hx.
  apply in_map_iff in Hx. destruct Hx as (t & <- & _).
  intros id. split; reflexivity.
Qed.

Lemma writes_of_threads (now : Z) (st : Storage.Store) :
  map fst (writes_of w now st) = map thread_id (Storage.threads st).
Proof. unfold writes_of. rewrite map_map. reflexivity. Qed.

(** The writes of two refreshes of the same threads, programs and SERP
    results differ in the timestamp only. *)
Lemma writes_of_content (now now' : Z) (st : Storage.Store) :
  Forall2 (fun x x' => fst x = fst x'
                       /\ forall id, Storage.content (snd x id)
                                     = Storage.content (snd x' id))
    (writes_of w now st) (writes_of w now' st).
Proof.
  unfold writes_of. induction (Storage.threads st) as [|t ts IH]; simpl.
  - constructor.
  - constructor; [|exact IH]. split; reflexivity.
Qed.

Lemma writes_of_refreshed (now now' : Z) (st : Storage.Store) :
  writes_of w now' (snd (Storage.refreshAll w now st)) = writes_of w now' st.
Proof. reflexivity. Qed.

(** The last write of a refresh to a thread identifier is the assessment
    of the last thread persisted under it. *)
Lemma last_write_writes_of (now : Z) (st : Storage.Store) (k : Z) :
  last_write (writes_of w now st) k
  = option_map
      (fun t => (thread_id t,
                 Storage.assess w (Storage.programs st) (Storage.serpResults st)
                   now t))
      (last_thread (Storage.threads st) k).
Proof.
  unfold last_write, last_thread, writes_of. rewrite <- map_rev.
  induction (rev (Storage.threads st)) as [|t ts IH]; simpl; [reflexivity|].
  now destruct (thread_id t =? k).
Qed.

(** After a refresh the first row of a thread identifier is the
    assessment of the last thread persisted under it, stored under the
    row's own identifier. *)
Lemma refreshAll_writes (now : Z) (st : Storage.Store) (k : Z) (t : Thread) :
  last_thread (Storage.threads st) k = Some t ->
  exists o,
    first_row (Storage.opportunities (snd (Storage.refreshAll w now st))) k
    = Some o
    /\ o = Storage.assess w (Storage.programs st) (Storage.serpResults st)
             now t (opportunity_id o).
Proof.
  intros L. rewrite refreshAll_upsert_all. simpl.
  apply (upsert_all_writes _ (writes_of_keyed now st) _ k
           (thread_id t,
            Storage.assess w (Storage.programs st) (Storage.serpResults st) now t)).
  now rewrite last_write_writes_of, L.
Qed.

End RefreshFacts.

(** Every persisted thread is the last one under some identifier: its
    own. *)
Lemma last_thread_In (ts : list Thread) (t : Thread) :
  In t ts ->
  exists t', last_thread ts (thread_id t) = Some t' /\ thread_id t' = thread_id t.
Proof.
  unfold last_thread. rewrite in_rev.
  induction (rev ts) as [|a l IH]; simpl; [contradiction|].
  destruct (thread_id a =? thread_id t) eqn:E.
  - intros _. exists a. split; [reflexivity|]. now apply Z.eqb_eq.
  - intros [->|H]; [now rewrite Z.eqb_refl in E|]. now apply IH.
Qed.

(** With distinct thread identifiers it is the thread itself. *)
Lemma last_thread_unique (ts : list Thread) (t : Thread) :
  NoDup (map thread_id ts) -> In t ts -> last_thread ts (thread_id t) = Some t.
Proof.
  unfold last_thread. rewrite in_rev. intros D.
  assert (D' : NoDup (map thread_id (rev ts))).
  { rewrite map_rev. now apply NoDup_rev. }
  clear D. induction (rev ts) as [|a l IH]; simpl; [contradiction|].
  inversion D' as [|x xs Hx Hxs]; subst.
  intros [->|H]; [now rewrite Z.eqb_refl|].
  destruct (thread_id a =? thread_id t) eqn:E.
  - apply Z.eqb_eq in E. exfalso. apply Hx. rewrite E. now apply in_map.
  - now apply IH.
Qed.

Lemma sample_threads_distinct :
  NoDup (map thread_id (Storage.threads sample_store)).
Proof.
  simpl. repeat (constructor; [simpl; intuition discriminate|]). constructor.
Defined.

(** C8: a refresh writes the opportunity of every persisted thread and
    returns the number of opportunities it wrote, one per persisted
    thread: after it the first row of a thread is the assessment of the
    thread (of the last thread persisted under the identifier, which is
    the thread itself when identifiers are distinct). Refreshing again
    with threads, programs and SERP results unchanged writes as many and
    leaves every opportunity row as it was (same identifier, thread,
    score, intent, matched programs, SERP flag and action), the timestamp
    apart; with the same timestamp the whole store is unchanged. The
    route answers with the count and keeps the refreshed store. *)
Theorem refreshOpportunities_idempotent :
  forall (w : Weights) (now later : Z) (st : Storage.Store),
    fst (Storage.refreshAll w now st) = List.length (Storage.threads st)
    /\ (forall t : Thread,
          In t (Storage.threads st) ->
          exists t' o,
            last_thread (Storage.threads st) (thread_id t) = Some t'
            /\ thread_id t' = thread_id t
            /\ first_row
                 (Storage.opportunities (snd (Storage.refreshAll w now st)))
                 (thread_id t) = Some o
            /\ o = Storage.assess w (Storage.programs st)
                     (Storage.serpResults st) now t' (opportunity_id o))
    /\ (NoDup (map thread_id (Storage.threads st)) ->
        forall t : Thread,
          In t (Storage.threads st) ->
          exists o,
            first_row
              (Storage.opportunities (snd (Storage.refreshAll w now st)))
              (thread_id t) = Some o
            /\ o = Storage.assess w (Storage.programs st)
                     (Storage.serpResults st) now t (opportunity_id o))
    /\ fst (Storage.refreshAll w later (snd (Storage.refreshAll w now st)))
       = fst (Storage.refreshAll w now st)
    /\ map Storage.content
         (Storage.opportunities
            (snd (Storage.refreshAll w later (snd (Storage.refreshAll w now st)))))
       = map Storage.content
           (Storage.opportunities (snd (Storage.refreshAll w now st)))
    /\ Storage.refreshAll w now (snd (Storage.refreshAll w now st))
       = Storage.refreshAll w now st
    /\ fst (refresh_opportunities Storage.Store
              (Storage.refreshOpportunities w now) st)
       = Json 200 (List.length (Storage.threads st),
                   "Refreshed " ++ decimal (List.length (Storage.threads st))
                   ++ " opportunities")
    /\ snd (refresh_opportunities Storage.Store
              (Storage.refreshOpportunities w now) st)
       = snd (Storage.refreshAll w now st).
Proof.
  intros w now later st.
  assert (Covered : forall now',
             Storage.refreshAll w now' (snd (Storage.refreshAll w now st))
             = (List.length (Storage.threads st),
                {| Storage.threads := Storage.threads st;
                   Storage.programs := Storage.programs st;
                   Storage.serpResults := Storage.serpResults st;
                   Storage.opportunities :=
                     rewrite_all (writes_of w now' st)
                       (Storage.opportunities (snd (Storage.refreshAll w now st)));
                   Storage.nextOpportunityId :=
                     Storage.nextOpportunityId (snd (Storage.refreshAll w now st)) |})).
  { intros now'. rewrite (refreshAll_upsert_all w now' _).
    rewrite writes_of_refreshed.
    rewrite (refreshAll_upsert_all w now st). simpl.
    destruct (upsert_all_fixpoint _ (writes_of_keyed w now st)
                (Storage.opportunities st) (Storage.nextOpportunityId st))
      as [C _].
    destruct (upsert_all (writes_of w now st) _) as [rows1 next1]. simpl in *.
    rewrite upsert_all_covered.
    - reflexivity.
    - apply writes_of_keyed.
    - intros k Hk. apply C.
      rewrite writes_of_threads in *. exact Hk. }
  assert (Fix : rewrite_all (writes_of w now st)
                  (Storage.opportunities (snd (Storage.refreshAll w now st)))
                = Storage.opportunities (snd (Storage.refreshAll w now st))).
  { rewrite (refreshAll_upsert_all w now st). simpl.
    apply (upsert_all_fixpoint _ (writes_of_keyed w now st)). }
  split; [now rewrite refreshAll_upsert_all|].
  split.
  { intros t Ht. destruct (last_thread_In _ _ Ht) as (t' & L & E).
    destruct (refreshAll_writes w now st _ _ L) as (o & F & Ho).
    exists t', o. repeat split; assumption. }
  split.
  { intros D t Ht.
    apply (refreshAll_writes w now st _ _ (last_thread_unique _ _ D Ht)). }
  split; [rewrite Covered; now rewrite refreshAll_upsert_all|].
  split.
  - rewrite Covered. simpl Storage.opportunities at 1.
    transitivity
      (map Storage.content
         (rewrite_all (writes_of w now st)
            (Storage.opportunities (snd (Storage.refreshAll w now st))))).
    + apply rewrite_all_content; [apply writes_of_content|reflexivity].
    + now rewrite Fix.
  - split.
    + rewrite Covered, Fix.
      rewrite (refreshAll_upsert_all w now st). reflexivity.
    + unfold refresh_opportunities, Storage.refreshOpportunities.
      rewrite (refreshAll_upsert_all w now st). split; reflexivity.
Qed.

Lemma refreshOpportunities_idempotent_witness :
  exists o,
    first_row
      (Storage.opportunities
         (snd (Storage.refreshAll sample_weights 1000 sample_store))) 1
    = Some o
    /\ o = Storage.assess sample_weights (Storage.programs sample_store)
             (Storage.serpResults sample_store) 1000 (thread_numbered 1)
             (opportunity_id o).
Proof.
  destruct (refreshOpportunities_idempotent sample_weights 1000 2000 sample_store)
    as (_ & _ & Hwritten & _).
  apply (Hwritten sample_threads_distinct (thread_numbered 1)).
  simpl. tauto.
Defined.

(** A refresh of the sample store: three threads, three opportunities
    written; the thread numbered 1 mentions Jasper in a comparison and has
    one upvote, so it scores 10 + 5 + 1 and is worth a comment. *)
Example sample_refresh :
  fst (Storage.refreshAll sample_weights 1000 sample_store) = 3%nat
  /\ map (fun o => (score o, action o, matchedProgramIds o, updatedAt o))
       (filter (fun o => threadId o =? 1)
          (Storage.opportunities
             (snd (Storage.refreshAll sample_weights 1000 sample_store))))
     = [((10 * inject_Z 1 + 5 + 0 + 1 * inject_Z 1)%Q, "COMMENT", [1], 1000)].
Proof. split; reflexivity. Qed.

(* ================================================================== *)
(** * Properties of the comment generator *)
(* ================================================================== *)

Lemma recognized_placeholders_names :
  map placeholder recognized_names = recognized_placeholders.
Proof. reflexivity. Qed.

Lemma substitutions_names (program : AffiliateProgram) :
  map fst (substitutions program) = recognized_names.
Proof. reflexivity. Qed.

(** The handler replaces the placeholders one after the other. *)
Lemma fill_template_fold (program : AffiliateProgram) (text : string) :
  fill_template program text
  = fold_left (fun comment x => replaceAll (placeholder (fst x)) (snd x) comment)
      (substitutions program) text.
Proof. reflexivity. Qed.

Section ReplaceFacts.

Lemma string_app_assoc (a b c : string) : (a ++ b) ++ c = a ++ (b ++ c).
Proof. induction a as [|x a IH]; simpl; [reflexivity|now rewrite IH]. Qed.

Lemma prefix_cons (a b : ascii) (p s : string) :
  prefix (String a p) (String b s)
  = if Ascii.eqb a b then prefix p s else false.
Proof.
  change (prefix (String a p) (String b s))
    with (match ascii_dec a b with left _ => prefix p s | right _ => false end).
  destruct (ascii_dec a b) as [->|D].
  - now rewrite Ascii.eqb_refl.
  - apply Ascii.eqb_neq in D. now rewrite D.
Qed.

Lemma prefix_open_other (c : ascii) (q s : string) :
  Ascii.eqb c "{" = false -> prefix (String "{" q) (String c s) = false.
Proof.
  intros H. rewrite prefix_cons, Ascii.eqb_sym. now rewrite H.
Qed.

Lemma prefix_app (p s : string) : prefix p (p ++ s) = true.
Proof.
  induction p as [|c p IH]; [now destruct s|].
  cbn [append]. now rewrite prefix_cons, Ascii.eqb_refl.
Qed.

Lemma no_open_app (a b : string) : no_open (a ++ b) = no_open a && no_open b.
Proof.
  induction a as [|c a IH]; simpl; [reflexivity|].
  now rewrite IH, andb_assoc.
Qed.

Lemma brace_free_no_open (s : string) : brace_free s = true -> no_open s = true.
Proof.
  induction s as [|c s IH]; simpl; [reflexivity|].
  unfold is_brace. intros H. apply andb_true_iff in H. destruct H as [H1 H2].
  rewrite IH by assumption. destruct (Ascii.eqb c "{"); [discriminate|reflexivity].
Qed.

Lemma brace_free_app (a b : string) :
  brace_free (a ++ b) = brace_free a && brace_free b.
Proof.
  induction a as [|c a IH]; simpl; [reflexivity|].
  now rewrite IH, andb_assoc.
Qed.

(** A text without opening brace holds no placeholder. *)
Lemma prefix_no_open (q u s : string) :
  no_open u = true -> u <> "" -> prefix (String "{" q) (u ++ s) = false.
Proof.
  destruct u as [|c u]; [congruence|]. cbn [append no_open]. intros H _.
  apply andb_true_iff in H. destruct H as [H _].
  apply prefix_open_other. now destruct (Ascii.eqb c "{").
Qed.

Lemma includes_no_open (q s : string) :
  no_open s = true -> includes (String "{" q) s = false.
Proof.
  induction s as [|c s IH]; [reflexivity|].
  intros H. simpl in H. apply andb_true_iff in H. destruct H as [Hc Hs].
  cbn [includes]. rewrite (IH Hs), orb_false_r.
  apply prefix_open_other. now destruct (Ascii.eqb c "{").
Qed.

Lemma expand_plain (matched before after r : string) :
  plain r = true -> expand matched before after r = r.
Proof.
  induction r as [|c r IH]; [reflexivity|].
  cbn [plain expand]. destruct (Ascii.eqb c "$").
  - destruct r as [|d r]; [reflexivity|].
    intros H. apply andb_true_iff in H. destruct H as [Hd Hr].
    destruct (Ascii.eqb d "$"); [discriminate|].
    destruct (Ascii.eqb d "&"); [discriminate|].
    destruct (Ascii.eqb d "`"); [discriminate|].
    destruct (Ascii.eqb d "'"); [discriminate|].
    now rewrite (IH Hr).
  - intros H. now rewrite (IH H).
Qed.

Variables p r : string.

(** The characters of a match are passed over. *)
Lemma skip_chars (u : string) :
  forall before s,
  exists before',
    replace_from p r before (String.length u) (u ++ s)
    = replace_from p r before' 0 s.
Proof.
  induction u as [|c u IH]; intros before s.
  - exists before. reflexivity.
  - destruct (IH (before ++ String c "") s) as [b' E].
    exists b'. exact E.
Qed.

Hypothesis r_plain : plain r = true.

(** A match is replaced by the replacement text as written. *)
Lemma replace_match (c : ascii) (rest : string) :
  p = String c rest ->
  forall before s,
  exists before',
    replace_from p r before 0 (p ++ s) = r ++ replace_from p r before' 0 s.
Proof.
  intros Hp before s.
  destruct (skip_chars rest (before ++ String c "") s) as [b' E].
  exists b'. rewrite <- E.
  replace (replace_from p r before 0 (p ++ s))
    with (expand p before (drop (String.length p) (p ++ s)) r
          ++ replace_from p r (before ++ String c "") (String.length p - 1)
               (rest ++ s)).
  - rewrite expand_plain by assumption.
    replace (String.length p - 1)%nat with (String.length rest);
      [reflexivity|].
    rewrite Hp. simpl. now rewrite Nat.sub_0_r.
  - pose proof (prefix_app p s) as Hpre.
    rewrite Hp in *. cbn [append replace_from] in *.
    now rewrite Hpre.
Qed.

(** Text without opening brace is copied. *)
Lemma copy_chars (q u : string) :
  p = String "{" q -> no_open u = true ->
  forall before s,
  exists before',
    replace_from p r before 0 (u ++ s) = u ++ replace_from p r before' 0 s.
Proof.
  intros Hp. induction u as [|c u IH]; intros Hu before s.
  - exists before. reflexivity.
  - simpl in Hu. apply andb_true_iff in Hu. destruct Hu as [Hc Hu].
    destruct (IH Hu (before ++ String c "") s) as [b' E].
    exists b'. cbn [append replace_from]. rewrite Hp at 1.
    rewrite prefix_open_other by (now destruct (Ascii.eqb c "{")).
    now rewrite E.
Qed.

End ReplaceFacts.

Section PlaceholderFacts.

Lemma not_brace (c : ascii) :
  negb (is_brace c) = true ->
  Ascii.eqb c "{" = false /\ Ascii.eqb c "}" = false.
Proof.
  unfold is_brace. destruct (Ascii.eqb c "{"), (Ascii.eqb c "}"); simpl;
    intros H; try discriminate; split; reflexivity.
Qed.

(** Two placeholders that start at the same place have the same name. *)
Lemma name_prefix (n : string) :
  forall m s,
    brace_free n = true -> brace_free m = true ->
    prefix (n ++ "}}") (m ++ "}}" ++ s) = true -> n = m.
Proof.
  induction n as [|a n IH]; intros [|c m] s Hn Hm; cbn [append brace_free] in *.
  - reflexivity.
  - apply andb_true_iff in Hm. destruct Hm as [Hc _].
    apply not_brace in Hc. destruct Hc as [_ Hc].
    rewrite prefix_cons, Ascii.eqb_sym, Hc. discriminate.
  - apply andb_true_iff in Hn. destruct Hn as [Ha _].
    apply not_brace in Ha. destruct Ha as [_ Ha].
    rewrite prefix_cons, Ha. discriminate.
  - apply andb_true_iff in Hn, Hm. destruct Hn as [_ Hn], Hm as [_ Hm].
    rewrite prefix_cons. destruct (Ascii.eqb a c) eqn:E; [|discriminate].
    apply Ascii.eqb_eq in E. subst c. intros H. f_equal. now apply (IH m s).
Qed.

Variables n r : string.
Hypothesis n_brace_free : brace_free n = true.
Hypothesis r_plain : plain r = true.

(** Another placeholder is copied. *)
Lemma replace_other_hole (m : string) :
  brace_free m = true -> m <> n ->
  forall before s,
  exists before',
    replace_from (placeholder n) r before 0 (placeholder m ++ s)
    = placeholder m ++ replace_from (placeholder n) r before' 0 s.
Proof.
  intros Hm D before s.
  assert (Hu : no_open (m ++ "}}") = true).
  { rewrite no_open_app, (brace_free_no_open m Hm). reflexivity. }
  assert (Hne : m ++ "}}" <> "") by (destruct m; discriminate).
  destruct (copy_chars (placeholder n) r ("{" ++ n ++ "}}") (m ++ "}}")
              eq_refl Hu ((before ++ "{") ++ "{") s) as [b' E].
  exists b'.
  change (placeholder m ++ s) with (String "{" (String "{" ((m ++ "}}") ++ s))).
  change (placeholder m ++ replace_from (placeholder n) r b' 0 s)
    with (String "{" (String "{"
            ((m ++ "}}") ++ replace_from (placeholder n) r b' 0 s))).
  cbn [replace_from].
  replace (prefix (placeholder n) (String "{" (String "{" ((m ++ "}}") ++ s))))
    with false.
  - replace (prefix (placeholder n) (String "{" ((m ++ "}}") ++ s))) with false.
    + now rewrite E.
    + symmetry. unfold placeholder. cbn [append].
      rewrite prefix_cons, Ascii.eqb_refl.
      now apply prefix_no_open.
  - symmetry. unfold placeholder. cbn [append].
    rewrite !prefix_cons, !Ascii.eqb_refl.
    destruct (prefix (n ++ "}}") ((m ++ "}}") ++ s)) eqn:P; [|reflexivity].
    rewrite string_app_assoc in P.
    apply name_prefix in P; try assumption. congruence.
Qed.

(** One [replaceAll] on a template: the placeholder of the name is
    replaced wherever it stands, everything else is copied. *)
Lemma replace_tokens (toks : list token) :
  forallb brace_free_token toks = true ->
  forall before,
    replace_from (placeholder n) r before 0 (flatten toks)
    = flatten (map (fill_token [(n, r)]) toks).
Proof.
  induction toks as [|t toks IH]; intros H before; [reflexivity|].
  cbn [forallb] in H. apply andb_true_iff in H. destruct H as [Ht H].
  cbn [flatten map]. destruct t as [s|m]; cbn [render fill_token lookup].
  - destruct (copy_chars (placeholder n) r ("{" ++ n ++ "}}") s eq_refl
                (brace_free_no_open s Ht) before (flatten toks)) as [b' E].
    rewrite E. now rewrite (IH H b').
  - destruct (String.eqb m n) eqn:E.
    + apply String.eqb_eq in E. subst m. cbn [render].
      destruct (replace_match (placeholder n) r r_plain "{"%char
                  ("{" ++ n ++ "}}") eq_refl before (flatten toks)) as [b' E].
      rewrite E. now rewrite (IH H b').
    + apply String.eqb_neq in E. cbn [render].
      destruct (replace_other_hole m Ht E before (flatten toks)) as [b' E'].
      rewrite E'. now rewrite (IH H b').
Qed.

Lemma replaceAll_tokens (toks : list token) :
  forallb brace_free_token toks = true ->
  replaceAll (placeholder n) r (flatten toks)
  = flatten (map (fill_token [(n, r)]) toks).
Proof. intros H. exact (replace_tokens toks H ""). Qed.

End PlaceholderFacts.

Section TemplateFacts.

Lemma fill_token_cons (n v : string) (subs : list (string * string)) (t : token) :
  fill_token subs (fill_token [(n, v)] t) = fill_token ((n, v) :: subs) t.
Proof.
  destruct t as [s|m]; [reflexivity|]. cbn [fill_token lookup].
  now destruct (String.eqb m n).
Qed.

Lemma brace_free_token_fill (n v : string) (t : token) :
  brace_free v = true -> brace_free_token t = true ->
  brace_free_token (fill_token [(n, v)] t) = true.
Proof.
  intros Hv. destruct t as [s|m]; [trivial|]. cbn [fill_token lookup].
  now destruct (String.eqb m n).
Qed.

Lemma fill_token_nil (t : token) : fill_token [] t = t.
Proof. now destruct t. Qed.

(** The replacements one after the other fill every placeholder with
    the value of its name. *)
Lemma fold_replaceAll_tokens (subs : list (string * string)) :
  forallb (fun x => brace_free (fst x) && literal (snd x)) subs = true ->
  forall toks,
    forallb brace_free_token toks = true ->
    fold_left (fun comment x => replaceAll (placeholder (fst x)) (snd x) comment)
      subs (flatten toks)
    = flatten (map (fill_token subs) toks).
Proof.
  induction subs as [|[n v] subs IH]; intros Hs toks Ht.
  - cbn [fold_left]. rewrite (map_ext _ (fun t => t) fill_token_nil).
    now rewrite map_id.
  - cbn [forallb fst snd] in Hs.
    apply andb_true_iff in Hs. destruct Hs as [Hnv Hs].
    apply andb_true_iff in Hnv. destruct Hnv as [Hn Hv].
    unfold literal in Hv. apply andb_true_iff in Hv. destruct Hv as [Hp Hb].
    cbn [fold_left fst snd].
    rewrite (replaceAll_tokens n v Hn Hp toks Ht).
    rewrite (IH Hs).
    + rewrite map_map. f_equal. apply map_ext. intros t. apply fill_token_cons.
    + rewrite forallb_forall in *. intros t Hin.
      apply in_map_iff in Hin. destruct Hin as (t0 & <- & Hin).
      apply brace_free_token_fill; auto.
Qed.

Lemma lookup_literal (subs : list (string * string)) (m : string) :
  forallb (fun x => brace_free (fst x) && literal (snd x)) subs = true ->
  existsb (String.eqb m) (map fst subs) = true ->
  exists v, lookup m subs = Some v /\ brace_free v = true.
Proof.
  induction subs as [|[n v] subs IH]; cbn [forallb existsb map lookup fst snd];
    [discriminate|].
  intros Hs Hm. apply andb_true_iff in Hs. destruct Hs as [Hnv Hs].
  destruct (String.eqb m n).
  - exists v. split; [reflexivity|].
    apply andb_true_iff in Hnv. destruct Hnv as [_ Hv].
    unfold literal in Hv. apply andb_true_iff in Hv. apply Hv.
  - apply IH; assumption.
Qed.

(** A template of well-formed tokens, once filled, holds no opening
    brace. *)
Lemma filled_no_open (subs : list (string * string)) (toks : list token) :
  forallb (fun x => brace_free (fst x) && literal (snd x)) subs = true ->
  map fst subs = recognized_names ->
  forallb well_formed toks = true ->
  no_open (flatten (map (fill_token subs) toks)) = true.
Proof.
  intros Hs Hn. induction toks as [|t toks IH]; [reflexivity|].
  cbn [forallb map flatten]. intros H.
  apply andb_true_iff in H. destruct H as [Ht H].
  rewrite no_open_app, (IH H), andb_true_r.
  destruct t as [s|m]; cbn [well_formed fill_token render] in *.
  - now apply brace_free_no_open.
  - apply andb_true_iff in Ht. destruct Ht as [_ Hm].
    rewrite <- Hn in Hm.
    destruct (lookup_literal subs m Hs Hm) as (v & -> & Hv).
    now apply brace_free_no_open.
Qed.

Lemma well_formed_brace_free (toks : list token) :
  forallb well_formed toks = true -> forallb brace_free_token toks = true.
Proof.
  rewrite !forallb_forall. intros H t Ht. specialize (H t Ht).
  destruct t as [s|m]; [exact H|].
  cbn [well_formed] in H. apply andb_true_iff in H. apply H.
Qed.

Lemma substitutions_literal (program : AffiliateProgram) :
  literal (name program) = true ->
  literal (link program) = true ->
  literal (promo_code_text program) = true ->
  forallb (fun x => brace_free (fst x) && literal (snd x))
    (substitutions program) = true.
Proof.
  intros Hn Hl Hp. unfold substitutions. cbn [forallb fst snd].
  rewrite Hn, Hl, Hp. reflexivity.
Qed.

Lemma recognized_open (p : string) :
  In p recognized_placeholders -> exists q, p = String "{" q.
Proof.
  unfold recognized_placeholders, program_placeholders, mock_substitutions.
  cbn [map fst app In]. intros H.
  repeat (destruct H as [<-|H]; [eexists; reflexivity|]). destruct H.
Qed.

(** Filling a template of well-formed tokens for a program whose
    name, link and promo code are literal. *)
Lemma fill_template_tokens (program : AffiliateProgram) (toks : list token) :
  forallb well_formed toks = true ->
  literal (name program) = true ->
  literal (link program) = true ->
  literal (promo_code_text program) = true ->
  fill_template program (flatten toks)
  = flatten (map (fill_token (substitutions program)) toks)
  /\ forall p, In p recognized_placeholders ->
               includes p (fill_template program (flatten toks)) = false.
Proof.
  intros Ht Hn Hl Hp.
  pose proof (substitutions_literal program Hn Hl Hp) as Hs.
  assert (E : fill_template program (flatten toks)
              = flatten (map (fill_token (substitutions program)) toks)).
  { rewrite fill_template_fold.
    apply fold_replaceAll_tokens; [exact Hs|].
    now apply well_formed_brace_free. }
  split; [exact E|].
  intros p Hin. destruct (recognized_open p Hin) as [q ->].
  rewrite E. apply includes_no_open.
  apply filled_no_open; [exact Hs|apply substitutions_names|exact Ht].
Qed.

End TemplateFacts.

(** C10 (as amended): the handler replaces each recognized placeholder
    at every place where it stands, and [{{promo_code}}] by the empty
    text when the program has no promo code. For a template made of
    brace-free text and recognized placeholders, and a program whose name,
    link and promo code hold no brace and no [$] replacement pattern, the
    comment is the template with each placeholder replaced by its value,
    and no recognized placeholder occurs in it. *)
Theorem generate_comment_fills_placeholders :
  forall (getThreadById : Q -> outcome (option Thread))
         (getAffiliateProgramById : Q -> outcome (option AffiliateProgram))
         (getCommentTemplateById : Q -> outcome (option CommentTemplate))
         (body : json) (threadId affiliateProgramId templateId : Q)
         (thread : Thread) (program : AffiliateProgram) (tmpl : CommentTemplate)
         (toks : list token),
    generate_comment_schema body
      = Returns (threadId, affiliateProgramId, templateId) ->
    getThreadById threadId = Returns (Some thread) ->
    getAffiliateProgramById affiliateProgramId = Returns (Some program) ->
    getCommentTemplateById templateId = Returns (Some tmpl) ->
    template tmpl = flatten toks ->
    forallb well_formed toks = true ->
    literal (name program) = true ->
    literal (link program) = true ->
    literal (promo_code_text program) = true ->
    exists comment,
      generate_comment getThreadById getAffiliateProgramById
        getCommentTemplateById body = Json 200 comment
      /\ comment = flatten (map (fill_token (substitutions program)) toks)
      /\ (forall p, In p recognized_placeholders -> includes p comment = false)
      /\ lookup "promo_code" (substitutions program)
         = Some (match promoCode program with Some code => code | None => "" end).
Proof.
  intros getT getP getC body tid pid cid thread program tmpl toks
    Hbody Hthread Hprogram Htmpl Htext Htoks Hn Hl Hp.
  exists (fill_template program (template tmpl)).
  split.
  - unfold generate_comment. now rewrite Hbody, Hthread, Hprogram, Htmpl.
  - rewrite Htext.
    destruct (fill_template_tokens program toks Htoks Hn Hl Hp) as [E I].
    split; [exact E|]. split; [exact I|reflexivity].
Qed.

Lemma generate_comment_fills_placeholders_witness :
  exists comment,
    generate_comment find_thread (find_program jasper)
      (find_template (flatten sample_template)) comment_request
    = Json 200 comment
    /\ comment = flatten (map (fill_token (substitutions jasper)) sample_template)
    /\ (forall p, In p recognized_placeholders -> includes p comment = false)
    /\ lookup "promo_code" (substitutions jasper) = Some "".
Proof.
  exact (generate_comment_fills_placeholders find_thread (find_program jasper)
           (find_template (flatten sample_template)) comment_request
           7%Q 1%Q 3%Q _ jasper _ sample_template
           eq_refl eq_refl eq_refl eq_refl eq_refl eq_refl eq_refl eq_refl eq_refl).
Defined.

(** The comment of the sample template: both occurrences of
    [{{program}}] are replaced and the missing promo code leaves nothing. *)
Example sample_comment :
  generate_comment find_thread (find_program jasper)
    (find_template (flatten sample_template)) comment_request
  = Json 200
      "I use Jasper (https://jasper.example/try) for blog posts and social media content. Jasper costs $49 with code .".
Proof. reflexivity. Qed.

(** C10 (as stated) fails: a placeholder can be left in the comment. The
    empty promo code can join the two halves of a placeholder that was
    replaced earlier, and a program name can bring a placeholder with it. *)
Lemma generated_comment_keeps_placeholder :
  generate_comment find_thread (find_program jasper)
    (find_template "{{pro{{promo_code}}gram}}") comment_request
  = Json 200 "{{program}}"
  /\ generate_comment find_thread (find_program echo)
       (find_template "Try {{program}}") comment_request
     = Json 200 "Try {{program}}"
  /\ In "{{program}}" recognized_placeholders
  /\ includes "{{program}}" "{{program}}" = true
  /\ includes "{{program}}" "Try {{program}}" = true.
Proof.
  split; [reflexivity|]. split; [reflexivity|].
  split; [now left|]. split; reflexivity.
Qed.

(* ================================================================== *)
(** * How [parseInt] reads the decimal text of a number *)
(* ================================================================== *)

Section ParseIntFacts.

Lemma digit_chars (c : ascii) :
  is_digit c = true ->
  is_white_space c = false
  /\ (exists d, digit_value c = Some d /\ 0 <= d < 10)
  /\ Ascii.eqb c "x" = false /\ Ascii.eqb c "X" = false.
Proof.
  destruct c as [[] [] [] [] [] [] [] []]; cbv; intros H;
    try discriminate H; (split; [reflexivity|]);
    (split; [eexists; split; [reflexivity|split; [discriminate|reflexivity]]|]);
    split; reflexivity.
Qed.

(** A character that is not a decimal digit ends the digits. *)
Lemma read_digits_stops (c : ascii) (rest : string) (acc : option Z) :
  is_digit c = false -> read_digits 10 acc (String c rest) = acc.
Proof.
  destruct c as [[] [] [] [] [] [] [] []]; cbv [is_digit]; simpl; intros H;
    try discriminate H; reflexivity.
Qed.

Lemma string_of_uint_digits (d : Decimal.uint) :
  digits_only (NilEmpty.string_of_uint d) = true.
Proof. induction d; simpl; auto. Qed.

(** Reading the digits of [d] after the digits already read. *)
Lemma read_digits_uint (rest : string) :
  (forall acc, read_digits 10 acc rest = acc) ->
  forall (d : Decimal.uint) (a : nat),
    read_digits 10 (Some (Z.of_nat a)) (NilEmpty.string_of_uint d ++ rest)
    = Some (Z.of_nat (Nat.of_uint_acc d a)).
Proof.
  intros Hrest. induction d; intros a;
    cbn [NilEmpty.string_of_uint append Nat.of_uint_acc];
    [apply Hrest| | | | | | | | | |];
    (etransitivity; [|apply IHd]);
    cbn [read_digits]; cbv [digit_value]; simpl;
    do 2 f_equal; rewrite Nat.tail_mul_spec; lia.
Qed.

Lemma read_digits_start (c : ascii) (s : string) :
  is_digit c = true ->
  read_digits 10 None (String c s) = read_digits 10 (Some 0) (String c s).
Proof.
  intros H. destruct (digit_chars c H) as (_ & (d & Hd & Hb) & _).
  cbn [read_digits]. rewrite Hd.
  replace (d <? 10) with true by (symmetry; apply Z.ltb_lt; lia).
  reflexivity.
Qed.

(** The decimal text of [n]: digits only, not empty, read back as [n]. *)
Lemma decimal_text (n : nat) :
  exists c s, decimal n = String c s /\ is_digit c = true
              /\ digits_only s = true.
Proof.
  unfold decimal, NilZero.string_of_uint.
  destruct (Nat.to_uint n) eqn:E;
    try (eexists; eexists; split; [reflexivity|]; split; [reflexivity|];
         apply string_of_uint_digits).
  exists "0"%char, "". repeat split.
Qed.

Lemma read_decimal (n : nat) (rest : string) :
  (forall acc, read_digits 10 acc rest = acc) ->
  read_digits 10 None (decimal n ++ rest) = Some (Z.of_nat n).
Proof.
  intros Hrest. pose proof (DecimalNat.Unsigned.of_to n) as R.
  unfold decimal, NilZero.string_of_uint.
  destruct (Nat.to_uint n) as [|d|d|d|d|d|d|d|d|d|d] eqn:E;
    [ cbn in R; subst n; cbn [append read_digits]; cbv [digit_value]; simpl;
      apply Hrest
    | .. ];
    rewrite <- R; unfold Nat.of_uint;
    match goal with
    | |- context [NilEmpty.string_of_uint ?u] =>
        rewrite <- (read_digits_uint rest Hrest u 0)
    end;
    cbn [NilEmpty.string_of_uint append]; now apply read_digits_start.
Qed.

Lemma ends_number_stops (n : nat) (rest : string) :
  ends_number n rest = true -> forall acc, read_digits 10 acc rest = acc.
Proof.
  destruct rest as [|c rest]; [reflexivity|]. cbn [ends_number]. intros H acc.
  apply andb_true_iff in H. destruct H as [H _].
  apply read_digits_stops. now destruct (is_digit c).
Qed.

(** [parseInt] on a text that starts with a decimal digit, with or
    without a minus sign in front, when it is not a hexadecimal prefix. *)
Lemma parseInt_digits (c : ascii) (s : string) (v : Z) :
  is_digit c = true ->
  (c = "0"%char -> match s with
                   | String c2 _ => Ascii.eqb c2 "x" = false /\ Ascii.eqb c2 "X" = false
                   | EmptyString => True
                   end) ->
  read_digits 10 None (String c s) = Some v ->
  parseInt (String c s) = to_number (1 * v)
  /\ parseInt (String "-" (String c s)) = to_number (-1 * v).
Proof.
  intros Hc Hx Hv.
  destruct c as [[] [] [] [] [] [] [] []]; try discriminate Hc;
    try (unfold parseInt; cbv -[read_digits Z.mul to_number]; rewrite Hv;
         split; reflexivity).
  specialize (Hx eq_refl).
  destruct s as [|c2 s2];
    [unfold parseInt; cbv -[read_digits Z.mul to_number]; rewrite Hv; split; reflexivity|].
  destruct Hx as [H1 H2].
  destruct c2 as [[] [] [] [] [] [] [] []];
    try discriminate H1; try discriminate H2;
    unfold parseInt; cbv -[read_digits Z.mul to_number]; rewrite Hv; split; reflexivity.
Qed.

Lemma to_number_small (z : Z) :
  Z.abs z <= 2 ^ 53 -> to_number z = int z.
Proof.
  intros H. unfold to_number.
  replace (Z.abs z <=? 2 ^ 53) with true by (symmetry; now apply Z.leb_le).
  reflexivity.
Qed.

(** The decimal text of [n], and what follows it, are read as the Number
    of [n]. *)
Lemma parseInt_decimal_number (n : nat) (rest : string) :
  ends_number n rest = true ->
  parseInt (decimal n ++ rest) = to_number (Z.of_nat n)
  /\ parseInt ("-" ++ decimal n ++ rest) = to_number (- Z.of_nat n).
Proof.
  intros H.
  pose proof (read_decimal n rest (ends_number_stops n rest H)) as R.
  destruct (decimal_text n) as (c & s & E & Hc & Hs).
  assert (Z0 : c = "0"%char -> s = "" -> n = 0%nat).
  { intros -> ->. pose proof (read_decimal n "" (fun acc => eq_refl)) as R0.
    rewrite E in R0. cbn in R0. injection R0 as R0. lia. }
  rewrite E in *. cbn [append] in *.
  destruct (parseInt_digits c (s ++ rest) (Z.of_nat n) Hc) as [P N].
  - intros C0. destruct s as [|c2 s2]; cbn [append].
    + specialize (Z0 C0 eq_refl). subst n.
      destruct rest as [|c2 r2]; [exact I|]. cbn [ends_number] in H.
      apply andb_true_iff in H. destruct H as [_ H]. simpl in H.
      destruct (Ascii.eqb c2 "x"), (Ascii.eqb c2 "X"); try discriminate H.
      split; reflexivity.
    + cbn [digits_only] in Hs. apply andb_true_iff in Hs. destruct Hs as [Hs _].
      apply (digit_chars c2 Hs).
  - exact R.
  - replace (1 * Z.of_nat n) with (Z.of_nat n) in P by lia.
    replace (-1 * Z.of_nat n) with (- Z.of_nat n) in N by lia.
    split; assumption.
Qed.

Lemma parseInt_decimal (n : nat) (rest : string) :
  Z.of_nat n <= 2 ^ 53 ->
  ends_number n rest = true ->
  parseInt (decimal n ++ rest) = int (Z.of_nat n)
  /\ parseInt ("-" ++ decimal n ++ rest) = int (- Z.of_nat n).
Proof.
  intros B H. destruct (parseInt_decimal_number n rest H) as [P N].
  rewrite P, N. split; apply to_number_small; lia.
Qed.

End ParseIntFacts.

(* ================================================================== *)
(** * Properties of the routes that read numbers from the request *)
(* ================================================================== *)

Lemma decimal_not_empty (n : nat) (rest : string) : decimal n ++ rest <> "".
Proof.
  destruct (decimal_text n) as (c & s & E & _). rewrite E. discriminate.
Qed.




(** X2: in the opportunity listing a limit and an offset given as the
    decimal texts of [l] and [o], both at most 2^53, reach the storage as
    the numbers [l] and [o], zero included, and are echoed back as such
    when the storage answers. *)
Theorem list_opportunities_reads_decimal_paging :
  forall (getOpportunities : OpportunityFilters -> outcome (list Opportunity))
         (q : OpportunitiesQuery) (l o : nat)
         (items all : list Opportunity),
    Z.of_nat l <= 2 ^ 53 ->
    Z.of_nat o <= 2 ^ 53 ->
    q_limit q = Some (decimal l) ->
    q_offset q = Some (decimal o) ->
    getOpportunities (opportunities_page_filters q) = Returns items ->
    getOpportunities (opportunities_total_filters q) = Returns all ->
    opportunities_limit (opportunities_page_filters q) = Some (int (Z.of_nat l))
    /\ opportunities_offset (opportunities_page_filters q) = Some (int (Z.of_nat o))
    /\ list_opportunities getOpportunities q
       = Json 200 {| listed := items; total := List.length all;
                     limit := int (Z.of_nat l); offset := int (Z.of_nat o) |}.
Proof.
  intros getO q l o items all Bl Bo Hl Ho Hp Ht.
  assert (El : decimal l = decimal l ++ "").
  { clear. induction (decimal l) as [|c s IH]; simpl; congruence. }
  assert (Eo : decimal o = decimal o ++ "").
  { clear. induction (decimal o) as [|c s IH]; simpl; congruence. }
  pose proof (proj1 (parseInt_decimal l "" Bl eq_refl)) as Pl.
  pose proof (proj1 (parseInt_decimal o "" Bo eq_refl)) as Po.
  rewrite <- El in Pl. rewrite <- Eo in Po.
  pose proof (decimal_not_empty l "") as Dl. rewrite <- El in Dl.
  pose proof (decimal_not_empty o "") as Do. rewrite <- Eo in Do.
  apply String.eqb_neq in Dl, Do.
  assert (Fl : opportunities_limit (opportunities_page_filters q)
               = Some (int (Z.of_nat l))).
  { simpl. rewrite Hl. unfold parse_if_truthy. simpl. now rewrite Dl, Pl. }
  assert (Fo : opportunities_offset (opportunities_page_filters q)
               = Some (int (Z.of_nat o))).
  { simpl. rewrite Ho. unfold parse_if_truthy. simpl. now rewrite Do, Po. }
  split; [exact Fl|]. split; [exact Fo|].
  unfold list_opportunities. rewrite Hp, Ht, Hl, Ho. simpl.
  now rewrite Pl, Po.
Qed.

Lemma list_opportunities_reads_decimal_paging_witness :
  opportunities_limit (opportunities_page_filters third_page_of_five)
    = Some (int 5)
  /\ opportunities_offset (opportunities_page_filters third_page_of_five)
     = Some (int 10)
  /\ list_opportunities (Storage.getOpportunities by_score_value sample_store)
       third_page_of_five
     = Json 200
         {| listed := map (fun n => opportunity_scored n (10 * n)) [13; 12; 11; 10; 9];
            total := 10; limit := int 5; offset := int 10 |}.
Proof.
  exact (list_opportunities_reads_decimal_paging
           (Storage.getOpportunities by_score_value sample_store)
           third_page_of_five 5 10 _ _ ltac:(lia) ltac:(lia)
           eq_refl eq_refl eq_refl eq_refl).
Defined.



(** X4: the page request of the thread listing always carries a limit,
    except when the limit parameter is the empty text: then no limit
    reaches the storage and the limit echoed back is [NaN]. The offset
    reaches the storage unless it is left out or empty. *)
Theorem threads_limit_dropped_only_when_empty :
  forall q : ThreadsQuery,
    (threads_limit (threads_page_filters q) = None
     <-> q_threads_limit q = Some "")
    /\ (threads_offset (threads_page_filters q) = None
        <-> q_threads_offset q = None \/ q_threads_offset q = Some "")
    /\ (forall getThreads page,
          q_threads_limit q = Some "" ->
          list_threads getThreads q = Json 200 page -> limit page = NaN).
Proof.
  intros q. simpl. unfold parse_if_truthy. split; [|split].
  - destruct (q_threads_limit q) as [s|]; simpl.
    + destruct (String.eqb_spec s "") as [->|D]; simpl.
      * split; reflexivity.
      * split; [discriminate|]. intros H. congruence.
    + split; discriminate.
  - destruct (q_threads_offset q) as [s|]; simpl.
    + destruct (String.eqb_spec s "") as [->|D]; simpl.
      * split; auto.
      * split; [discriminate|]. intros [H|H]; congruence.
    + split; auto.
  - intros getT page Hl. unfold list_threads.
    destruct (getT _); [|discriminate]. destruct (getT _); [|discriminate].
    intros H. injection H as <-. simpl. now rewrite Hl.
Qed.

Lemma threads_limit_dropped_only_when_empty_witness :
  threads_limit
    (threads_page_filters
       {| q_subreddit := None; q_intentType := None; q_serpRank := None;
          q_affiliateProgram := None; q_search := None;
          q_threads_limit := Some ""; q_threads_offset := None;
          q_threads_sortBy := None; q_threads_sortDirection := None |})
  = None.
Proof.
  exact (proj2 (proj1 (threads_limit_dropped_only_when_empty
                         {| q_subreddit := None; q_intentType := None;
                            q_serpRank := None; q_affiliateProgram := None;
                            q_search := None; q_threads_limit := Some "";
                            q_threads_offset := None; q_threads_sortBy := None;
                            q_threads_sortDirection := None |})) eq_refl).
Defined.

(** X5: the opportunity listing filters on SERP match true only for the
    parameter text [true]; every other text that is not empty filters on
    SERP match false, and a parameter left out or empty does not filter.
    The page request and the total request agree. *)
Theorem serpMatch_parameter_decoding :
  forall q : OpportunitiesQuery,
    (by_serpMatch (opportunities_page_filters q) = Some true
     <-> q_serpMatch q = Some "true")
    /\ (by_serpMatch (opportunities_page_filters q) = None
        <-> q_serpMatch q = None \/ q_serpMatch q = Some "")
    /\ (by_serpMatch (opportunities_page_filters q) = Some false
        <-> exists s, q_serpMatch q = Some s /\ s <> "" /\ s <> "true")
    /\ by_serpMatch (opportunities_total_filters q)
       = by_serpMatch (opportunities_page_filters q).
Proof.
  intros q. simpl. unfold parse_serpMatch.
  destruct (q_serpMatch q) as [s|].
  - destruct (String.eqb_spec s "") as [->|D].
    + repeat split; try discriminate; auto.
      intros (s & H & Hs & _). congruence.
    + destruct (String.eqb_spec s "true") as [->|T].
      * repeat split; try discriminate; auto.
        -- intros [H|H]; congruence.
        -- intros (s & H & _ & Hs). congruence.
      * repeat split; try discriminate.
        -- intros H. congruence.
        -- intros [H|H]; congruence.
        -- intros _. exists s. auto.
  - repeat split; try discriminate; auto.
    intros (s & H & _). discriminate.
Qed.

(** X6: a listing answers 500 exactly when one of its two storage
    requests fails, whatever the failure is, and answers 200 otherwise;
    a listing never answers 400. *)
Theorem listing_fails_with_the_storage :
  forall (getThreads : ThreadFilters -> outcome (list Thread))
         (getOpportunities : OpportunityFilters -> outcome (list Opportunity))
         (qt : ThreadsQuery) (qo : OpportunitiesQuery),
    (list_threads getThreads qt = Message 500 "Failed to fetch threads"
     <-> (exists e, getThreads (threads_page_filters qt) = Throws e)
         \/ (exists e, getThreads (threads_total_filters qt) = Throws e))
    /\ (list_opportunities getOpportunities qo
        = Message 500 "Failed to fetch opportunities"
        <-> (exists e, getOpportunities (opportunities_page_filters qo) = Throws e)
            \/ (exists e, getOpportunities (opportunities_total_filters qo) = Throws e))
    /\ (code_of (list_threads getThreads qt) = 200
        \/ code_of (list_threads getThreads qt) = 500)
    /\ (code_of (list_opportunities getOpportunities qo) = 200
        \/ code_of (list_opportunities getOpportunities qo) = 500).
Proof.
  intros getT getO qt qo. unfold list_threads, list_opportunities.
  repeat split.
  - destruct (getT (threads_page_filters qt)) as [p|e]; [|eauto].
    destruct (getT (threads_total_filters qt)) as [a|e]; [discriminate|eauto].
  - intros [[e H]|[e H]].
    + now rewrite H.
    + rewrite H. now destruct (getT (threads_page_filters qt)).
  - destruct (getO (opportunities_page_filters qo)) as [p|e]; [|eauto].
    destruct (getO (opportunities_total_filters qo)) as [a|e]; [discriminate|eauto].
  - intros [[e H]|[e H]].
    + now rewrite H.
    + rewrite H. now destruct (getO (opportunities_page_filters qo)).
  - destruct (getT (threads_page_filters qt)); [|now right].
    destruct (getT (threads_total_filters qt)); [now left|now right].
  - destruct (getO (opportunities_page_filters qo)); [|now right].
    destruct (getO (opportunities_total_filters qo)); [now left|now right].
Qed.

(* ================================================================== *)
(** * More properties of the crawler routes *)
(* ================================================================== *)

Lemma z_strings_inv (items : list json) :
  forall l, z_strings items = Returns l -> items = map JStr l.
Proof.
  induction items as [|v items IH]; intros l; simpl.
  - intros H. injection H as <-. reflexivity.
  - destruct v; try discriminate.
    destruct (z_strings items) as [l'|e]; [|discriminate].
    intros H. injection H as <-. simpl. now rewrite (IH l').
Qed.

Lemma z_strings_throws (items : list json) (e : exn) :
  z_strings items = Throws e -> e = ZodError.
Proof.
  induction items as [|v items IH]; simpl; [discriminate|].
  destruct v; try congruence.
  destruct (z_strings items); [discriminate|]. intros H. injection H as <-. auto.
Qed.

Lemma run_crawler_schema_returns (body : json) (given : option (list string)) :
  run_crawler_schema body = Returns given ->
  exists props, body = JObj props
    /\ prop "subreddits" props = option_map (fun l => JArr (map JStr l)) given.
Proof.
  unfold run_crawler_schema, z_object, z_optional_string_array.
  destruct body; try discriminate.
  destruct (prop "subreddits" props) as [v|] eqn:P.
  - destruct v; try discriminate.
    destruct (z_strings items) as [l|e] eqn:E; [|discriminate].
    intros H. injection H as <-. exists props. split; [reflexivity|].
    rewrite P. simpl. now rewrite (z_strings_inv items l E).
  - intros H. injection H as <-. exists props. split; [reflexivity|exact P].
Qed.

Lemma run_crawler_schema_throws (body : json) (e : exn) :
  run_crawler_schema body = Throws e -> e = ZodError.
Proof.
  unfold run_crawler_schema, z_object, z_optional_string_array.
  destruct body; try congruence.
  destruct (prop "subreddits" props) as [v|]; [|discriminate].
  destruct v; try congruence.
  destruct (z_strings items) as [l|e'] eqn:E; [discriminate|].
  intros H. injection H as <-. exact (z_strings_throws items e' E).
Qed.

(** X7: the run-crawler route answers 400 without running the crawler
    exactly for the bodies that are not an object whose [subreddits] is
    left out or an array of strings: a null or a text as [subreddits], or
    an array with an entry that is not a text, is refused. *)
Theorem run_crawler_rejects_invalid_bodies :
  forall (CrawlHistory : Type) (getAllSubreddits : list string)
         (runCrawler : list string -> outcome CrawlHistory)
         (id_text count_text : CrawlHistory -> string) (body : json),
    run_crawler CrawlHistory getAllSubreddits runCrawler id_text count_text body
    = ([], Message 400 "Invalid request data")
    <-> ~ (exists props given,
              body = JObj props
              /\ prop "subreddits" props
                 = option_map (fun l => JArr (map JStr l)) given).
Proof.
  intros CrawlHistory allSubs runCrawler idt cnt body. split.
  - intros H (props & given & -> & Hp).
    pose proof (run_crawler_schema_given props given Hp) as S.
    destruct (run_crawler_valid CrawlHistory allSubs runCrawler idt cnt _ _ S)
      as [C _].
    rewrite H in C. discriminate C.
  - intros N. destruct (run_crawler_schema body) as [given|e] eqn:S.
    + exfalso. apply N.
      destruct (run_crawler_schema_returns body given S) as (props & Hb & Hp).
      eauto.
    + rewrite (run_crawler_schema_throws body e S) in S.
      now apply run_crawler_invalid.
Qed.

(** A null list of subreddits, for one, is refused. *)
Example run_crawler_null_subreddits :
  run_crawler nat ["SEO"; "marketing"] counting_crawler
    (fun _ => "1") (fun _ => "0") (JObj [("subreddits", JNull)])
  = ([], Message 400 "Invalid request data").
Proof. reflexivity. Qed.

(** X8: the test route does not validate the body: an array under
    [subreddits], empty or not, with texts or not, is handed to the
    crawler as it is, and the answer is the crawler's. For the body with
    the empty list the run-crawler route crawls the full standard list
    and the test route hands the crawler the empty list. *)
Theorem test_crawler_hands_arrays_unchanged :
  forall (CrawlResult : Type) (runCrawlerWith : json -> outcome CrawlResult)
         (props : list (string * json)) (items : list json),
    prop "subreddits" props = Some (JArr items) ->
    test_dotnet_crawler CrawlResult runCrawlerWith (Some (JObj props))
    = ([JArr items],
       match runCrawlerWith (JArr items) with
       | Returns result => TestSuccessful result
       | Throws _ => TestFailed
       end)
    /\ (items = [] ->
        forall (CrawlHistory : Type) (getAllSubreddits : list string)
               (runCrawler : list string -> outcome CrawlHistory)
               (id_text count_text : CrawlHistory -> string),
          crawls (fst (run_crawler CrawlHistory getAllSubreddits runCrawler
                         id_text count_text (JObj props)))
          = [getAllSubreddits]).
Proof.
  intros R run props items H. split.
  - unfold test_dotnet_crawler, subreddits_property, test_subreddits.
    rewrite H. simpl. now destruct (run (JArr items)).
  - intros -> CrawlHistory allSubs runCrawler idt cnt.
    pose proof (run_crawler_schema_given props (Some []) H) as S.
    exact (proj1 (run_crawler_valid CrawlHistory allSubs runCrawler idt cnt _ _ S)).
Qed.

Lemma test_crawler_hands_arrays_unchanged_witness :
  test_dotnet_crawler nat counting_any (Some (JObj [("subreddits", JArr [])]))
  = ([JArr []], TestSuccessful 0%nat).
Proof.
  exact (proj1 (test_crawler_hands_arrays_unchanged nat counting_any
                  [("subreddits", JArr [])] [] eq_refl)).
Defined.

(** X9: the test route falls back to [programming] and [javascript]
    exactly when the body has no truthy [subreddits]: the crawler is handed
    the two names if and only if the property is missing, falsy, or is
    that very list. A body that is null or missing is answered with the
    failure and the crawler is not run. *)
Theorem test_crawler_default_list :
  forall (CrawlResult : Type) (runCrawlerWith : json -> outcome CrawlResult)
         (props : list (string * json)),
    (fst (test_dotnet_crawler CrawlResult runCrawlerWith (Some (JObj props)))
     = [JArr [JStr "programming"; JStr "javascript"]]
     <-> prop "subreddits" props = None
         \/ (exists v, prop "subreddits" props = Some v /\ js_truthy v = false)
         \/ prop "subreddits" props
            = Some (JArr [JStr "programming"; JStr "javascript"]))
    /\ test_dotnet_crawler CrawlResult runCrawlerWith None = ([], TestFailed)
    /\ test_dotnet_crawler CrawlResult runCrawlerWith (Some JNull)
       = ([], TestFailed).
Proof.
  intros R run props. split; [|split; reflexivity].
  unfold test_dotnet_crawler, subreddits_property, test_subreddits.
  destruct (prop "subreddits" props) as [v|].
  - destruct (js_truthy v) eqn:T.
    + split.
      * destruct (run v); simpl; intros H; injection H as ->; auto.
      * intros [H|[(v' & H & F)|H]].
        -- discriminate.
        -- injection H as <-. congruence.
        -- injection H as ->. now destruct (run _).
    + split.
      * intros _. right. left. eauto.
      * intros _. now destruct (run _).
  - split.
    + auto.
    + intros _. now destruct (run _).
Qed.

(* ================================================================== *)
(** * More properties of the comment generator *)
(* ================================================================== *)

(** A text in which the pattern does not occur is left as it is. *)
Lemma replace_from_absent (p r : string) (s : string) :
  includes p s = false ->
  forall before, replace_from p r before 0 s = s.
Proof.
  induction s as [|c s IH]; intros H before; [reflexivity|].
  cbn [includes] in H. apply orb_false_iff in H. destruct H as [Hp Hs].
  cbn [replace_from]. rewrite Hp. now rewrite (IH Hs).
Qed.

Lemma replaceAll_absent (p r s : string) :
  p <> "" -> includes p s = false -> replaceAll p r s = s.
Proof.
  intros Hp H. unfold replaceAll. destruct p as [|c p]; [congruence|].
  now apply replace_from_absent.
Qed.

Lemma substitution_recognized (program : AffiliateProgram) (x : string * string) :
  In x (substitutions program) -> In (placeholder (fst x)) recognized_placeholders.
Proof.
  intros H. rewrite <- recognized_placeholders_names.
  rewrite <- (substitutions_names program). rewrite map_map.
  apply in_map_iff. exists x. split; [reflexivity|exact H].
Qed.

Lemma fill_template_absent (program : AffiliateProgram) (text : string) :
  (forall p, In p recognized_placeholders -> includes p text = false) ->
  fill_template program text = text.
Proof.
  intros H. rewrite fill_template_fold.
  pose proof (substitution_recognized program) as R.
  induction (substitutions program) as [|x subs IH]; [reflexivity|].
  cbn [fold_left]. rewrite replaceAll_absent.
  - apply IH. intros y Hy. apply R. now right.
  - unfold placeholder. discriminate.
  - apply H, R. now left.
Qed.

(** X10: a template in which no recognized placeholder occurs comes out
    of the comment generator unchanged, whatever the program's name, link
    and promo code are. *)
Theorem generate_comment_without_placeholders :
  forall (getThreadById : Q -> outcome (option Thread))
         (getAffiliateProgramById : Q -> outcome (option AffiliateProgram))
         (getCommentTemplateById : Q -> outcome (option CommentTemplate))
         (body : json) (threadId affiliateProgramId templateId : Q)
         (thread : Thread) (program : AffiliateProgram) (tmpl : CommentTemplate),
    generate_comment_schema body
      = Returns (threadId, affiliateProgramId, templateId) ->
    getThreadById threadId = Returns (Some thread) ->
    getAffiliateProgramById affiliateProgramId = Returns (Some program) ->
    getCommentTemplateById templateId = Returns (Some tmpl) ->
    (forall p, In p recognized_placeholders -> includes p (template tmpl) = false) ->
    generate_comment getThreadById getAffiliateProgramById
      getCommentTemplateById body
    = Json 200 (template tmpl).
Proof.
  intros getT getP getC body tid pid cid thread program tmpl
    Hbody Hthread Hprogram Htmpl Habsent.
  unfold generate_comment. rewrite Hbody, Hthread, Hprogram, Htmpl.
  now rewrite (fill_template_absent program _ Habsent).
Qed.

Lemma recognized_absent_decide (text : string) :
  forallb (fun p => negb (includes p text)) recognized_placeholders = true ->
  forall p, In p recognized_placeholders -> includes p text = false.
Proof.
  intros H p Hp. rewrite forallb_forall in H. specialize (H p Hp).
  now destruct (includes p text).
Qed.

Lemma generate_comment_without_placeholders_witness :
  generate_comment find_thread (find_program echo)
    (find_template "Has anyone tried {this}? It costs $& less.") comment_request
  = Json 200 "Has anyone tried {this}? It costs $& less.".
Proof.
  exact (generate_comment_without_placeholders find_thread (find_program echo)
           (find_template "Has anyone tried {this}? It costs $& less.")
           comment_request 7%Q 1%Q 3%Q _ echo
           {| template_id := 3; template_type := "QUESTION";
              template := "Has anyone tried {this}? It costs $& less." |}
           eq_refl eq_refl eq_refl eq_refl
           (recognized_absent_decide
              "Has anyone tried {this}? It costs $& less." eq_refl)).
Defined.

(** X11: filling is idempotent on well-formed templates: for a template
    of brace-free text and recognized placeholders and a program whose
    name, link and promo code are literal, the comment the generator makes
    is a template it leaves unchanged. *)
Theorem fill_template_idempotent :
  forall (program : AffiliateProgram) (toks : list token),
    forallb well_formed toks = true ->
    literal (name program) = true ->
    literal (link program) = true ->
    literal (promo_code_text program) = true ->
    fill_template program (fill_template program (flatten toks))
    = fill_template program (flatten toks).
Proof.
  intros program toks Ht Hn Hl Hp.
  apply fill_template_absent.
  exact (proj2 (fill_template_tokens program toks Ht Hn Hl Hp)).
Qed.

Lemma fill_template_idempotent_witness :
  fill_template jasper (fill_template jasper (flatten sample_template))
  = fill_template jasper (flatten sample_template).
Proof.
  exact (fill_template_idempotent jasper sample_template
           eq_refl eq_refl eq_refl eq_refl).
Defined.

(** X12: when the body is valid and the storage answers, the generator
    answers 200 exactly when thread, program and template all exist, and
    otherwise 404 naming the first one missing in the order thread,
    affiliate program, template. *)
Theorem generate_comment_names_first_missing :
  forall (getThreadById : Q -> outcome (option Thread))
         (getAffiliateProgramById : Q -> outcome (option AffiliateProgram))
         (getCommentTemplateById : Q -> outcome (option CommentTemplate))
         (body : json) (threadId affiliateProgramId templateId : Q)
         (thread : option Thread) (program : option AffiliateProgram)
         (tmpl : option CommentTemplate),
    generate_comment_schema body
      = Returns (threadId, affiliateProgramId, templateId) ->
    getThreadById threadId = Returns thread ->
    getAffiliateProgramById affiliateProgramId = Returns program ->
    getCommentTemplateById templateId = Returns tmpl ->
    (code_of (generate_comment getThreadById getAffiliateProgramById
                getCommentTemplateById body) = 200
     <-> thread <> None /\ program <> None /\ tmpl <> None)
    /\ (thread = None ->
        generate_comment getThreadById getAffiliateProgramById
          getCommentTemplateById body = Message 404 "Thread not found")
    /\ (thread <> None -> program = None ->
        generate_comment getThreadById getAffiliateProgramById
          getCommentTemplateById body = Message 404 "Affiliate program not found")
    /\ (thread <> None -> program <> None -> tmpl = None ->
        generate_comment getThreadById getAffiliateProgramById
          getCommentTemplateById body = Message 404 "Template not found").
Proof.
  intros getT getP getC body tid pid cid thread program tmpl
    Hbody Hthread Hprogram Htmpl.
  unfold generate_comment. rewrite Hbody, Hthread, Hprogram, Htmpl.
  destruct thread as [th|], program as [pr|], tmpl as [tm|]; simpl;
    repeat split; try discriminate; try congruence; try tauto;
    intros (A & B & C); congruence.
Qed.

Lemma generate_comment_names_first_missing_witness :
  generate_comment (fun _ => Returns None) (fun _ => Returns None)
    (find_template "{{program}}") comment_request
  = Message 404 "Thread not found".
Proof.
  exact (proj1 (proj2 (generate_comment_names_first_missing
                         (fun _ => Returns None) (fun _ => Returns None)
                         (find_template "{{program}}") comment_request
                         7%Q 1%Q 3%Q None None _
                         eq_refl eq_refl eq_refl eq_refl)) eq_refl).
Defined.

(** X13: the comment depends on the template text and on the name, link
    and promo code of the program only: the thread has to exist but
    nothing of it is used, and neither are the identifier and the keywords
    of the program nor the type of the template. *)
Theorem generate_comment_ignores_thread :
  forall (getThreadById getThreadById' : Q -> outcome (option Thread))
         (getAffiliateProgramById getAffiliateProgramById'
            : Q -> outcome (option AffiliateProgram))
         (getCommentTemplateById getCommentTemplateById'
            : Q -> outcome (option CommentTemplate))
         (body : json) (threadId affiliateProgramId templateId : Q)
         (thread thread' : Thread) (program program' : AffiliateProgram)
         (tmpl tmpl' : CommentTemplate),
    generate_comment_schema body
      = Returns (threadId, affiliateProgramId, templateId) ->
    getThreadById threadId = Returns (Some thread) ->
    getThreadById' threadId = Returns (Some thread') ->
    getAffiliateProgramById affiliateProgramId = Returns (Some program) ->
    getAffiliateProgramById' affiliateProgramId = Returns (Some program') ->
    getCommentTemplateById templateId = Returns (Some tmpl) ->
    getCommentTemplateById' templateId = Returns (Some tmpl') ->
    name program = name program' ->
    link program = link program' ->
    promoCode program = promoCode program' ->
    template tmpl = template tmpl' ->
    generate_comment getThreadById getAffiliateProgramById
      getCommentTemplateById body
    = generate_comment getThreadById' getAffiliateProgramById'
        getCommentTemplateById' body.
Proof.
  intros getT getT' getP getP' getC getC' body tid pid cid th th' pr pr' tm tm'
    Hbody Ht Ht' Hp Hp' Hc Hc' Hname Hlink Hpromo Htext.
  unfold generate_comment.
  rewrite Hbody, Ht, Ht', Hp, Hp', Hc, Hc'. f_equal.
  unfold fill_template, promo_code_text. now rewrite Hname, Hlink, Hpromo, Htext.
Qed.

Lemma generate_comment_ignores_thread_witness :
  generate_comment find_thread (find_program jasper)
    (find_template (flatten sample_template)) comment_request
  = generate_comment
      (fun _ => Returns (Some (thread_numbered 2)))
      (find_program
         {| program_id := 9; name := "Jasper"; link := "https://jasper.example/try";
            promoCode := None; keywords := ["ai"; "writer"] |})
      (fun _ => Returns (Some {| template_id := 4; template_type := "REVIEW";
                                 template := flatten sample_template |}))
      comment_request.
Proof.
  exact (generate_comment_ignores_thread
           find_thread (fun _ => Returns (Some (thread_numbered 2)))
           (find_program jasper)
           (find_program
              {| program_id := 9; name := "Jasper";
                 link := "https://jasper.example/try";
                 promoCode := None; keywords := ["ai"; "writer"] |})
           (find_template (flatten sample_template))
           (fun _ => Returns (Some {| template_id := 4; template_type := "REVIEW";
                                      template := flatten sample_template |}))
           comment_request 7%Q 1%Q 3%Q _ _ _ _ _ _
           eq_refl eq_refl eq_refl eq_refl eq_refl eq_refl eq_refl
           eq_refl eq_refl eq_refl eq_refl).
Defined.

(* ================================================================== *)
(** * Properties of the create and update routes *)
(* ================================================================== *)

Lemma z_numbers_map_JNum (l : list Q) : z_numbers (map JNum l) = Returns l.
Proof.
  induction l as [|q l IH]; simpl; [reflexivity|]. now rewrite IH.
Qed.

Lemma z_numbers_inv (items : list json) :
  forall l, z_numbers items = Returns l -> items = map JNum l.
Proof.
  induction items as [|v items IH]; intros l; simpl.
  - intros H. injection H as <-. reflexivity.
  - destruct v; try discriminate.
    destruct (z_numbers items) as [l'|e]; [|discriminate].
    intros H. injection H as <-. simpl. now rewrite (IH l').
Qed.

Lemma z_optional_string_inv (v : option json) (s : option string) :
  z_optional_string v = Returns s -> v = option_map JStr s.
Proof.
  destruct v as [[]|]; simpl; try discriminate; intros H; injection H as <-;
    reflexivity.
Qed.

Lemma z_optional_number_inv (v : option json) (q : option Q) :
  z_optional_number v = Returns q -> v = option_map JNum q.
Proof.
  destruct v as [[]|]; simpl; try discriminate; intros H; injection H as <-;
    reflexivity.
Qed.

Lemma z_number_array_inv (v : option json) (l : list Q) :
  z_number_array v = Returns l -> v = Some (JArr (map JNum l)).
Proof.
  destruct v as [[]|]; simpl; try discriminate.
  intros H. now rewrite (z_numbers_inv items l H).
Qed.

Lemma opportunity_schema_round_trip (d : InsertOpportunity) :
  opportunity_schema (opportunity_body d) = Returns d.
Proof.
  destruct d as [t s i m b a]. unfold opportunity_schema, opportunity_body, z_object.
  cbn [new_opportunity_threadId new_score new_intent new_matchedProgramIds
       new_serpMatch new_action].
  destruct i as [i|]; simpl; now rewrite z_numbers_map_JNum.
Qed.

Lemma opportunity_schema_returns (body : json) (d : InsertOpportunity) :
  opportunity_schema body = Returns d ->
  exists props, body = JObj props
    /\ prop "threadId" props = Some (JNum (new_opportunity_threadId d))
    /\ prop "score" props = Some (JNum (new_score d))
    /\ prop "intent" props = option_map JStr (new_intent d)
    /\ prop "matchedProgramIds" props
       = Some (JArr (map JNum (new_matchedProgramIds d)))
    /\ prop "serpMatch" props = Some (JBool (new_serpMatch d))
    /\ prop "action" props = Some (JStr (new_action d)).
Proof.
  unfold opportunity_schema, z_object. destruct body; try discriminate.
  destruct (z_number (prop "threadId" props)) as [t|] eqn:Ht; try discriminate.
  destruct (z_number (prop "score" props)) as [s|] eqn:Hs; try discriminate.
  destruct (z_optional_string (prop "intent" props)) as [i|] eqn:Hi;
    try discriminate.
  destruct (z_number_array (prop "matchedProgramIds" props)) as [m|] eqn:Hm;
    try discriminate.
  destruct (z_boolean (prop "serpMatch" props)) as [b|] eqn:Hb; try discriminate.
  destruct (z_string (prop "action" props)) as [a|] eqn:Ha; try discriminate.
  intros H. injection H as <-. simpl. exists props.
  apply z_number_inv in Ht, Hs. apply z_optional_string_inv in Hi.
  apply z_number_array_inv in Hm. apply z_boolean_inv in Hb.
  apply z_string_inv in Ha. repeat split; assumption.
Qed.

(** X14: creating an opportunity round-trips: the body a client writes
    for an opportunity, with or without intent, is accepted and exactly
    that opportunity is handed to the storage, whose row is answered with
    201; and whatever is handed to the storage is what the body holds
    under the six keys of the schema. *)
Theorem create_opportunity_round_trip :
  forall (createOpportunity : InsertOpportunity -> outcome Opportunity)
         (d : InsertOpportunity),
    create_opportunity createOpportunity (opportunity_body d)
    = ([d], match createOpportunity d with
            | Returns o => Json 201 o
            | Throws e => create_opportunity_catch e
            end)
    /\ (forall body d',
          In d' (fst (create_opportunity createOpportunity body)) ->
          exists props, body = JObj props
            /\ prop "threadId" props = Some (JNum (new_opportunity_threadId d'))
            /\ prop "score" props = Some (JNum (new_score d'))
            /\ prop "intent" props = option_map JStr (new_intent d')
            /\ prop "matchedProgramIds" props
               = Some (JArr (map JNum (new_matchedProgramIds d')))
            /\ prop "serpMatch" props = Some (JBool (new_serpMatch d'))
            /\ prop "action" props = Some (JStr (new_action d'))).
Proof.
  intros create d. split.
  - unfold create_opportunity. rewrite opportunity_schema_round_trip.
    now destruct (create d).
  - intros body d' H. unfold create_opportunity in H.
    destruct (opportunity_schema body) as [d0|e] eqn:E; [|destruct H].
    assert (d0 = d') as <-.
    { destruct (create d0); simpl in H; destruct H as [H|[]]; exact H. }
    now apply opportunity_schema_returns.
Qed.

Lemma create_opportunity_round_trip_witness :
  create_opportunity (fun _ => Returns (opportunity_scored 1 60))
    (opportunity_body
       {| new_opportunity_threadId := 1%Q; new_score := 60%Q;
          new_intent := None; new_matchedProgramIds := [1%Q];
          new_serpMatch := true; new_action := "COMMENT" |})
  = ([{| new_opportunity_threadId := 1%Q; new_score := 60%Q;
         new_intent := None; new_matchedProgramIds := [1%Q];
         new_serpMatch := true; new_action := "COMMENT" |}],
     Json 201 (opportunity_scored 1 60)).
Proof.
  exact (proj1 (create_opportunity_round_trip
                  (fun _ => Returns (opportunity_scored 1 60))
                  {| new_opportunity_threadId := 1%Q; new_score := 60%Q;
                     new_intent := None; new_matchedProgramIds := [1%Q];
                     new_serpMatch := true; new_action := "COMMENT" |})).
Defined.

Lemma prop_other_key (k key : string) (v : json) (props : list (string * json)) :
  k <> key -> prop key ((k, v) :: props) = prop key props.
Proof.
  intros D. cbn [prop]. apply String.eqb_neq in D. now rewrite D.
Qed.

(** X15: an opportunity update reads the five keys of its schema only:
    a property under any other key, [threadId] or [id] for one, changes
    neither what is handed to the storage nor the answer. *)
Theorem update_opportunity_ignores_other_keys :
  forall (updateOpportunity : number -> OpportunityPatch -> outcome (option Opportunity))
         (idParam k : string) (v : json) (props : list (string * json)),
    ~ In k opportunity_patch_keys ->
    update_opportunity updateOpportunity idParam (JObj ((k, v) :: props))
    = update_opportunity updateOpportunity idParam (JObj props).
Proof.
  intros update idParam k v props N.
  unfold update_opportunity, opportunity_patch_schema, z_object.
  unfold opportunity_patch_keys in N. cbn [In] in N.
  rewrite !prop_other_key by (intros ->; tauto). reflexivity.
Qed.

Lemma update_opportunity_ignores_other_keys_witness :
  update_opportunity update_nothing "12"
    (JObj [("threadId", JNum 99%Q); ("score", JNum 40%Q)])
  = update_opportunity update_nothing "12" (JObj [("score", JNum 40%Q)]).
Proof.
  refine (update_opportunity_ignores_other_keys update_nothing "12" "threadId"
            (JNum 99%Q) [("score", JNum 40%Q)] _).
  cbn. intros [H|[H|[H|[H|[H|[]]]]]]; discriminate H.
Defined.

Lemma serp_result_patch_schema_returns (body : json) (d : SerpResultPatch) :
  serp_result_patch_schema body = Returns d ->
  exists props, body = JObj props
    /\ prop "query" props = option_map JStr (patch_query d)
    /\ prop "position" props = option_map JNum (patch_position d)
    /\ prop "isRanked" props = option_map JBool (patch_isRanked d).
Proof.
  unfold serp_result_patch_schema, z_object. destruct body; try discriminate.
  destruct (z_optional_string (prop "query" props)) as [q|] eqn:Hq;
    try discriminate.
  destruct (z_optional_number (prop "position" props)) as [p|] eqn:Hp;
    try discriminate.
  destruct (z_optional_boolean (prop "isRanked" props)) as [r|] eqn:Hr;
    try discriminate.
  intros H. injection H as <-. simpl. exists props.
  apply z_optional_string_inv in Hq. apply z_optional_number_inv in Hp.
  repeat split; try assumption.
  destruct (prop "isRanked" props) as [[]|]; simpl in Hr; try discriminate;
    injection Hr as <-; reflexivity.
Qed.

Lemma serp_result_patch_schema_throws (body : json) (e : exn) :
  serp_result_patch_schema body = Throws e -> e = ZodError.
Proof.
  unfold serp_result_patch_schema, z_object. destruct body; try congruence.
  destruct (z_optional_string (prop "query" props)),
    (z_optional_number (prop "position" props)),
    (z_optional_boolean (prop "isRanked" props)); congruence.
Qed.

(** X16: a SERP result update reaches the storage only with a position
    that is left out or a number, under the identifier [parseInt] reads
    from the path; a body that sets the position to null is answered with
    400 and the storage is not asked, so the update route cannot clear a
    position. *)
Theorem update_serp_result_keeps_position_numeric :
  forall (updateSerpResult : number -> SerpResultPatch -> outcome (option SerpResult))
         (idParam : string) (body : json),
    (forall call,
        In call (fst (update_serp_result updateSerpResult idParam body)) ->
        fst call = parseInt idParam
        /\ exists props,
             body = JObj props
             /\ prop "position" props = option_map JNum (patch_position (snd call)))
    /\ (forall props,
          body = JObj props ->
          prop "position" props = Some JNull ->
          update_serp_result updateSerpResult idParam body
          = ([], Message 400 "Invalid request data")).
Proof.
  intros update idParam body. split.
  - intros call H. unfold update_serp_result in H.
    destruct (serp_result_patch_schema body) as [d|e] eqn:E; [|destruct H].
    assert (call = (parseInt idParam, d)) as ->.
    { destruct (update (parseInt idParam) d) as [[r|]|e]; simpl in H;
        destruct H as [H|[]]; now rewrite <- H. }
    split; [reflexivity|].
    destruct (serp_result_patch_schema_returns body d E) as (props & Hb & _ & Hp & _).
    exists props. split; assumption.
  - intros props -> Hnull. unfold update_serp_result.
    destruct (serp_result_patch_schema (JObj props)) as [d|e] eqn:E.
    + destruct (serp_result_patch_schema_returns _ d E) as (props' & Hb & _ & Hp & _).
      injection Hb as <-. rewrite Hnull in Hp.
      destruct (patch_position d); discriminate Hp.
    + now rewrite (serp_result_patch_schema_throws _ e E).
Qed.

Lemma update_serp_result_keeps_position_numeric_witness :
  update_serp_result update_nothing "4"
    (JObj [("position", JNull); ("isRanked", JBool false)])
  = ([], Message 400 "Invalid request data").
Proof.
  exact (proj2 (update_serp_result_keeps_position_numeric update_nothing "4"
                  (JObj [("position", JNull); ("isRanked", JBool false)]))
           _ eq_refl eq_refl).
Defined.

(** X17: the category route answers 200 with the list of a category
    exactly when the list exists and is not empty: it never answers 200
    with an empty list, a category without subreddits being answered as
    not found. *)
Theorem subreddits_of_category_never_empty :
  forall (Subreddit : Type)
         (getSubredditsByCategory : string -> outcome (option (list Subreddit)))
         (category : string) (l : list Subreddit),
    subreddits_of_category Subreddit getSubredditsByCategory category = Json 200 l
    <-> getSubredditsByCategory category = Returns (Some l) /\ l <> [].
Proof.
  intros S get category l. unfold subreddits_of_category.
  destruct (get category) as [[l'|]|e].
  - destruct l' as [|x xs].
    + split; [discriminate|]. intros [H N]. injection H as <-. congruence.
    + split.
      * intros H. injection H as <-. split; [reflexivity|discriminate].
      * intros [H _]. injection H as <-. reflexivity.
  - split; [discriminate|]. intros [H _]. discriminate H.
  - split; [discriminate|]. intros [H _]. discriminate H.
Qed.
